(** * skada.deep.callbacks: source centroids and target memory bank

    A shallow embedding of the two skorch callbacks of
    [skada/deep/callbacks.py]:

    - [ComputeSourceCentroids.on_epoch_begin], which sums the L2-normalised
      source features of every class and seeds a spherical k-means on the
      target features with these sums;
    - [ComputeMemoryBank.on_batch_end], which rewrites the memory rows of the
      target samples of the current batch.

    Tensors of floats are idealised as lists of real numbers: a 1-D tensor is
    a [list R], a 2-D tensor the list of its rows.  Integer tensors (domain
    indicators, sample indices, labels) are lists of [Z].  The callbacks
    mutate the network object, and tensor indexing can raise; both effects
    are explicit through the monad [M] below. *)

From Stdlib Require Import Reals Lra ZArith Lia ZifyBool List Permutation.
From Stdlib Require String SpecFloat.
From stdpp Require Import base list.
Import ListNotations.
Import String.StringSyntax.
Delimit Scope string_scope with string.

Local Open Scope R_scope.

(** ** Exceptions and outcomes *)

Inductive exn : Type :=
| IndexError
| RuntimeError.

Inductive outcome (A : Type) : Type :=
| Returned (a : A)
| Raised (e : exn).
Arguments Returned {A} a.
Arguments Raised {A} e.

Definition obind {A B : Type} (o : outcome A) (k : A -> outcome B) : outcome B :=
  match o with
  | Returned a => k a
  | Raised e => Raised e
  end.

(** ** The torch primitives the callbacks use *)

Module Torch.

Definition vec : Type := list R.
Definition tensor2 : Type := list (list R).

(** [t < c], [t >= c] and [t == c] on an integer tensor: a boolean mask. *)
Definition lt_scalar (t : list Z) (c : Z) : list bool :=
  map (fun d => (d <? c)%Z) t.
Definition ge_scalar (t : list Z) (c : Z) : list bool :=
  map (fun d => (c <=? d)%Z) t.
Definition eq_scalar (t : list Z) (c : Z) : list bool :=
  map (fun d => (d =? c)%Z) t.

(** [mask.sum()]. *)
Definition mask_sum (mask : list bool) : nat :=
  length (List.filter (fun b : bool => b) mask).

(** [t[mask]] for a boolean mask over the first dimension: the rows at
    which the mask holds, in order; the shapes must agree. *)
Definition mask_select {A : Type} (t : list A) (mask : list bool)
  : outcome (list A) :=
  if Nat.eqb (length t) (length mask)
  then Returned (map fst (List.filter snd (combine t mask)))
  else Raised IndexError.

(** The row an integer index names in a tensor of [n] rows: indices in
    [[0, n)] name themselves, indices in [[-n, 0)] count from the end, any
    other index is out of range. *)
Definition row_of (n : nat) (i : Z) : option nat :=
  if ((0 <=? i) && (i <? Z.of_nat n))%Z then Some (Z.to_nat i)
  else if ((- Z.of_nat n <=? i) && (i <? 0))%Z
       then Some (Z.to_nat (i + Z.of_nat n))
       else None.

(** [t[idx]] for an integer index tensor: gathers the named rows. *)
Fixpoint index_select {A : Type} (t : list A) (idx : list Z)
  : outcome (list A) :=
  match idx with
  | [] => Returned []
  | i :: idx' =>
      match row_of (length t) i with
      | None => Raised IndexError
      | Some j =>
          match t !! j with
          | None => Raised IndexError
          | Some r => obind (index_select t idx') (fun rs => Returned (r :: rs))
          end
      end
  end.

(** [t[idx] = v]: writes row [k] of [v] at the row named by [idx[k]], in
    index order. *)
Fixpoint index_put {A : Type} (t : list A) (idx : list Z) (v : list A)
  : outcome (list A) :=
  match idx, v with
  | [], [] => Returned t
  | i :: idx', r :: v' =>
      match row_of (length t) i with
      | None => Raised IndexError
      | Some j => index_put (<[j := r]> t) idx' v'
      end
  | _, _ => Raised RuntimeError
  end.

(** The L2 norm of a row. *)
Definition sum_sq (v : vec) : R := fold_right (fun x acc => x * x + acc) 0 v.
Definition norm2 (v : vec) : R := sqrt (sum_sq v).

(** [F.normalize(t, p=2, dim=1)]: every row is divided by
    [max(norm, eps)] with the default [eps = 1e-12]. *)
Definition normalize_eps : R := / 10 ^ 12.
Definition normalize_row (v : vec) : vec :=
  map (fun x => x / Rmax (norm2 v) normalize_eps) v.
Definition normalize (t : tensor2) : tensor2 := map normalize_row t.

(** [F.softmax(t, dim=1)], in exact arithmetic, where every entry is
    positive.  The floating-point softmax rounds: an entry far below the
    largest of its row comes out as a subnormal number or as zero.  [Float32]
    below runs line 110 on such rounded values. *)
Definition vsum (v : vec) : R := fold_right Rplus 0 v.
Definition softmax_row (v : vec) : vec :=
  map (fun x => exp x / vsum (map exp v)) v.
Definition softmax (t : tensor2) : tensor2 := map softmax_row t.

(** [t ** 2], elementwise. *)
Definition square (t : tensor2) : tensor2 := map (map (fun x => x * x)) t.

(** [t.sum(dim=0)]: the vector of column sums.  A tensor without rows is
    the empty list whatever its number of columns, and so are its column
    sums here; every use below divides a tensor without rows by them. *)
Definition vadd (a b : vec) : vec := zip_with Rplus a b.
Definition sum_dim0 (t : tensor2) : vec :=
  match t with
  | [] => []
  | r :: rs => fold_left vadd rs r
  end.

(** [t / d] with a 2-D [t] and a 1-D [d]: [d] is broadcast over the rows. *)
Definition div_rows (t : tensor2) (d : vec) : tensor2 :=
  map (fun r => zip_with Rdiv r d) t.

(** [a * t] for a scalar [a]. *)
Definition scale (a : R) (t : tensor2) : tensor2 := map (map (Rmult a)) t.

(** [len(t.unique())]. *)
Definition n_unique (t : list Z) : nat := length (nodup Z.eq_dec t).

(** [torch.stack(ts)] of 1-D tensors: refuses an empty list. *)
Definition stack (ts : list vec) : outcome tensor2 :=
  match ts with
  | [] => Raised RuntimeError
  | _ :: _ => Returned ts
  end.

End Torch.
Import Torch.

(** ** The objects the callbacks work on *)

(** The clusterer is built and fitted by the callback; its own code is not
    part of the callbacks, so the object records what it was built with and
    what it was fitted on. *)
Record SphericalKMeans : Type := {
  n_clusters : nat;
  random_state : Z;
  initial_centroids : tensor2;
  fitted_on : tensor2
}.

(** [net.criterion__adapt_criterion]. *)
Record AdaptCriterion : Type := {
  memory_features : tensor2;
  memory_outputs : tensor2;
  target_kmeans : option SphericalKMeans
}.

Section Callbacks.

(** One raw input row of [X["X"]]. *)
Context {input : Type}.

(** The dict [X]: the inputs with, per row, the domain indicator and the
    sample index. *)
Record Xdict : Type := {
  X_ : list input;
  sample_domain : list Z;
  sample_idx : list Z
}.

(** [dataset_train] once [net._prepare_input] has split it in [X] and the
    labels [y]. *)
Record Dataset : Type := {
  dataset_X : Xdict;
  dataset_y : list Z
}.

(** The network: [module_training] is the flag [net.module_.training];
    [module_forward] is [net.module_(., return_features=True)], which may
    depend on that flag and returns the outputs and the features;
    [predict_features] is the feature extractor of the network, taken as a
    function of the batch of inputs.  Both belong to the network and not to
    the callbacks, and what they do to the network beyond their result is
    not part of this model. *)
Record NeuralNet : Type := {
  module_training : bool;
  module_forward : bool -> list input -> tensor2 * tensor2;
  predict_features : list input -> tensor2;
  criterion__adapt_criterion : AdaptCriterion
}.

(** *** State and exceptions *)

Definition M (A : Type) : Type := NeuralNet -> outcome A * NeuralNet.

Definition ret {A : Type} (a : A) : M A := fun net => (Returned a, net).

Definition bind {A B : Type} (m : M A) (k : A -> M B) : M B :=
  fun net =>
    match m net with
    | (Returned a, net') => k a net'
    | (Raised e, net') => (Raised e, net')
    end.

Definition lift {A : Type} (o : outcome A) : M A := fun net => (o, net).

Definition gets {A : Type} (f : NeuralNet -> A) : M A :=
  fun net => (Returned (f net), net).

Definition modify (f : NeuralNet -> NeuralNet) : M unit :=
  fun net => (Returned tt, f net).

Notation "'do' x <- m ; k" := (bind m (fun x => k))
  (at level 10, x name, m at level 100, k at level 200).
Notation "'do_' m ; k" := (bind m (fun _ => k))
  (at level 10, m at level 100, k at level 200).

(** [net.module_.eval()]. *)
Definition module_eval : M unit :=
  modify (fun net =>
    {| module_training := false;
       module_forward := module_forward net;
       predict_features := predict_features net;
       criterion__adapt_criterion := criterion__adapt_criterion net |}).

(** [net.module_(X_t, return_features=True)]. *)
Definition module_call (X_t : list input) : M (tensor2 * tensor2) :=
  gets (fun net => module_forward net (module_training net) X_t).

Definition with_criterion (f : AdaptCriterion -> AdaptCriterion)
  : NeuralNet -> NeuralNet :=
  fun net =>
    {| module_training := module_training net;
       module_forward := module_forward net;
       predict_features := predict_features net;
       criterion__adapt_criterion := f (criterion__adapt_criterion net) |}.

Definition set_memory_features (t : tensor2) : M unit :=
  modify (with_criterion (fun c =>
    {| memory_features := t;
       memory_outputs := memory_outputs c;
       target_kmeans := target_kmeans c |})).

Definition set_memory_outputs (t : tensor2) : M unit :=
  modify (with_criterion (fun c =>
    {| memory_features := memory_features c;
       memory_outputs := t;
       target_kmeans := target_kmeans c |})).

Definition set_target_kmeans (k : SphericalKMeans) : M unit :=
  modify (with_criterion (fun c =>
    {| memory_features := memory_features c;
       memory_outputs := memory_outputs c;
       target_kmeans := Some k |})).

(** *** ComputeMemoryBank *)

Record ComputeMemoryBank : Type := { momentum : R }.

(** The pseudo-probabilities of line 110:
    [softmax_out**2 / ((softmax_out**2).sum(dim=0))]. *)
Definition outputs_target_of (output_t : tensor2) : tensor2 :=
  let softmax_out := softmax output_t in
  div_rows (square softmax_out) (sum_dim0 (square softmax_out)).

(** [on_batch_end(self, net, batch)].  The statement that starts with
    [+self.momentum * ...] on lines 115 and 120 is an expression statement
    of its own: its value is computed and dropped, and the assignment before
    it ends at the closing parenthesis and the indexed memory. *)
Definition on_batch_end (self : ComputeMemoryBank) (batch : Xdict * list Z)
  : M unit :=
  let X := fst batch in
  do X_t <- lift (mask_select (X_ X) (lt_scalar (sample_domain X) 0));
  do batch_idx <- lift (mask_select (sample_idx X) (lt_scalar (sample_domain X) 0));
  do_ module_eval;
  do forwarded <- module_call X_t;
  let output_t := fst forwarded in
  let features_t := snd forwarded in
  let features_t := normalize features_t in
  let outputs_target := outputs_target_of output_t in
  do mf <- gets (fun net => memory_features (criterion__adapt_criterion net));
  do old_features <- lift (index_select mf batch_idx);
  let new_memory_features := scale (1 - momentum self) old_features in
  let _ := scale (momentum self) features_t in
  do mo <- gets (fun net => memory_outputs (criterion__adapt_criterion net));
  do old_outputs <- lift (index_select mo batch_idx);
  let new_memory_outputs := scale (1 - momentum self) old_outputs in
  let _ := scale (momentum self) outputs_target in
  do mf <- gets (fun net => memory_features (criterion__adapt_criterion net));
  do mf' <- lift (index_put mf batch_idx new_memory_features);
  do_ set_memory_features mf';
  do mo <- gets (fun net => memory_outputs (criterion__adapt_criterion net));
  do mo' <- lift (index_put mo batch_idx new_memory_outputs);
  set_memory_outputs mo'.

(** *** ComputeSourceCentroids *)

(** The loop of lines 56-62 over the classes [cs], appending to
    [source_centroids]. *)
Fixpoint centroid_loop (features_s : tensor2) (y_s : list Z)
    (cs : list nat) (source_centroids : list vec) : outcome (list vec) :=
  match cs with
  | [] => Returned source_centroids
  | c :: cs' =>
      let mask := eq_scalar y_s (Z.of_nat c) in
      if (0 <? mask_sum mask)%nat
      then
        obind (mask_select features_s mask) (fun class_features =>
          let normalized_features := normalize class_features in
          let centroid := sum_dim0 normalized_features in
          centroid_loop features_s y_s cs' (source_centroids ++ [centroid]))
      else centroid_loop features_s y_s cs' source_centroids
  end.

(** [on_epoch_begin(self, net, dataset_train)]. *)
Definition on_epoch_begin (dataset_train : Dataset) : M unit :=
  let X := dataset_X dataset_train in
  let y := dataset_y dataset_train in
  do X_s <- lift (mask_select (X_ X) (ge_scalar (sample_domain X) 0));
  do y_s <- lift (mask_select y (ge_scalar (sample_domain X) 0));
  do X_t <- lift (mask_select (X_ X) (lt_scalar (sample_domain X) 0));
  do features_s <- gets (fun net => predict_features net X_s);
  do features_t <- gets (fun net => predict_features net X_t);
  let n_classes := n_unique y_s in
  do source_centroids <- lift (centroid_loop features_s y_s (seq 0 n_classes) []);
  do source_centroids <- lift (stack source_centroids);
  let target_kmeans :=
    {| n_clusters := n_classes;
       random_state := 0;
       initial_centroids := source_centroids;
       fitted_on := features_t |} in
  set_target_kmeans target_kmeans.

End Callbacks.

Arguments Xdict : clear implicits.
Arguments Dataset : clear implicits.
Arguments NeuralNet : clear implicits.
Arguments M : clear implicits.

(** ** Views of a batch and of a data set by sample *)

Section Samples.

Context {input : Type}.

(** The shapes a data loader guarantees: one domain indicator and one
    sample index per input row. *)
Definition well_shaped (X : Xdict input) : Prop :=
  length (X_ X) = length (sample_domain X) /\
  length (sample_idx X) = length (sample_domain X).

(** A sample of a batch: its input, domain indicator and sample index. *)
Definition batch_samples (X : Xdict input) : list (input * Z * Z) :=
  combine (combine (X_ X) (sample_domain X)) (sample_idx X).

Definition is_target {A B : Type} (s : A * Z * B) : bool :=
  (snd (fst s) <? 0)%Z.
Definition is_source {A B : Type} (s : A * Z * B) : bool :=
  (0 <=? snd (fst s))%Z.

Definition target_samples (X : Xdict input) : list (input * Z * Z) :=
  List.filter is_target (batch_samples X).

(** The sample indices of the target rows of a batch, in batch order. *)
Definition target_sample_idx (X : Xdict input) : list Z :=
  map snd (target_samples X).

(** A sample of the training set: its input, domain indicator and label. *)
Definition well_shaped_dataset (d : Dataset input) : Prop :=
  length (X_ (dataset_X d)) = length (sample_domain (dataset_X d)) /\
  length (dataset_y d) = length (sample_domain (dataset_X d)).

Definition dataset_samples (d : Dataset input) : list (input * Z * Z) :=
  combine (combine (X_ (dataset_X d)) (sample_domain (dataset_X d)))
          (dataset_y d).

Definition source_of (d : Dataset input) : list (input * Z * Z) :=
  List.filter is_source (dataset_samples d).
Definition target_of (d : Dataset input) : list (input * Z * Z) :=
  List.filter is_target (dataset_samples d).

Definition source_inputs (d : Dataset input) : list input :=
  map (fun s => fst (fst s)) (source_of d).
Definition source_labels (d : Dataset input) : list Z :=
  map snd (source_of d).
Definition target_inputs (d : Dataset input) : list input :=
  map (fun s => fst (fst s)) (target_of d).

End Samples.

(** Every index of [idx] names a row of [t]. *)
Definition in_range {A : Type} (t : list A) (idx : list Z) : Prop :=
  Forall (fun i => row_of (length t) i <> None) idx.

(** A 2-D tensor of [d] columns. *)
Definition rectangular (d : nat) (t : tensor2) : Prop :=
  Forall (fun r => length r = d) t.

(** The exponential moving average the memory bank is documented to keep:
    [momentum * new + (1 - momentum) * old], coordinate by coordinate. *)
Definition ema_spec (m : R) (old new : vec) : vec :=
  zip_with (fun v0 v1 => m * v1 + (1 - m) * v0) old new.

(** The rows of the source features whose label is [c], and coordinate [j]
    of the sum of their L2-normalised vectors. *)
Definition class_rows (features_s : tensor2) (y_s : list Z) (c : Z) : tensor2 :=
  map fst (List.filter (fun p => (snd p =? c)%Z) (combine features_s y_s)).

Definition sum_of_normalized (rows : tensor2) (j : nat) : R :=
  fold_right Rplus 0 (map (fun r => nth j (normalize_row r) 0) rows).

(** The classes the loop of [on_epoch_begin] visits and finds non-empty. *)
Definition visited_classes (y_s : list Z) : list nat :=
  List.filter (fun c => (0 <? count_occ Z.eq_dec y_s (Z.of_nat c))%nat)
              (seq 0 (n_unique y_s)).

(** What [on_batch_end] does to the adaptation criterion once the target
    sample indices [idx] of the batch are known: both memories are gathered
    before either is written. *)
Definition memory_step (m : R) (idx : list Z) (c : AdaptCriterion)
  : outcome unit * AdaptCriterion :=
  match index_select (memory_features c) idx with
  | Raised e => (Raised e, c)
  | Returned old_features =>
      match index_select (memory_outputs c) idx with
      | Raised e => (Raised e, c)
      | Returned old_outputs =>
          match index_put (memory_features c) idx (scale (1 - m) old_features) with
          | Raised e => (Raised e, c)
          | Returned mf' =>
              let c' := {| memory_features := mf';
                           memory_outputs := memory_outputs c;
                           target_kmeans := target_kmeans c |} in
              match index_put (memory_outputs c) idx (scale (1 - m) old_outputs) with
              | Raised e => (Raised e, c')
              | Returned mo' =>
                  (Returned tt,
                   {| memory_features := mf';
                      memory_outputs := mo';
                      target_kmeans := target_kmeans c |})
              end
          end
      end
  end.

(** The centroid the loop of [on_epoch_begin] appends for class [c]. *)
Definition class_centroid (features_s : tensor2) (y_s : list Z) (c : nat) : vec :=
  sum_dim0 (normalize (class_rows features_s y_s (Z.of_nat c))).

(** What [on_epoch_begin] does once the training set is split into the
    source inputs [X_s], their labels [y_s] and the target inputs [X_t]. *)
Definition epoch_step {input : Type} (X_s : list input) (y_s : list Z)
    (X_t : list input) (net : NeuralNet input) : outcome unit * NeuralNet input :=
  let features_s := predict_features net X_s in
  let features_t := predict_features net X_t in
  match centroid_loop features_s y_s (seq 0 (n_unique y_s)) [] with
  | Raised e => (Raised e, net)
  | Returned [] => (Raised RuntimeError, net)
  | Returned (c :: cs) =>
      (Returned tt,
       with_criterion (fun crit =>
         {| memory_features := memory_features crit;
            memory_outputs := memory_outputs crit;
            target_kmeans :=
              Some {| n_clusters := n_unique y_s;
                      random_state := 0;
                      initial_centroids := c :: cs;
                      fitted_on := features_t |} |}) net)
  end.

(** ** Small concrete runs *)

(** A bank of one row holding [1] in both memories, a module that answers
    the logit [0] and the feature [1] for every row, and a batch of one
    target sample with sample index [0]. *)
Definition one_row_net (training : bool) (v0 : R) : NeuralNet unit :=
  {| module_training := training;
     module_forward := fun _ xs => (map (fun _ => [0]) xs, map (fun _ => [1]) xs);
     predict_features := fun xs => map (fun _ => [1]) xs;
     criterion__adapt_criterion :=
       {| memory_features := [[v0]];
          memory_outputs := [[v0]];
          target_kmeans := None |} |}.

Definition one_target_batch : Xdict unit * list Z :=
  ({| X_ := [tt]; sample_domain := [(-1)%Z]; sample_idx := [0%Z] |}, []).

(** A bank of three rows and a batch that holds the target samples [0] and
    [2] around a source sample of index [1]. *)
Definition three_row_net : NeuralNet unit :=
  {| module_training := true;
     module_forward := fun _ xs => (map (fun _ => [0]) xs, map (fun _ => [1]) xs);
     predict_features := fun xs => map (fun _ => [1]) xs;
     criterion__adapt_criterion :=
       {| memory_features := [[1]; [2]; [3]];
          memory_outputs := [[1]; [1]; [1]];
          target_kmeans := None |} |}.

Definition mixed_batch : Xdict unit * list Z :=
  ({| X_ := [tt; tt; tt];
      sample_domain := [(-1)%Z; 1%Z; (-2)%Z];
      sample_idx := [0%Z; 1%Z; 2%Z] |}, [0%Z; 0%Z; 0%Z]).

Definition source_only_batch : Xdict unit * list Z :=
  ({| X_ := [tt; tt];
      sample_domain := [0%Z; 1%Z];
      sample_idx := [0%Z; 1%Z] |}, [0%Z; 0%Z]).

(** The same bank behind a module that computes other outputs and features,
    and a batch with the same two target samples and no source sample. *)
Definition three_row_net_other_module : NeuralNet unit :=
  {| module_training := false;
     module_forward := fun _ xs => (map (fun _ => [5]) xs, map (fun _ => [7]) xs);
     predict_features := fun xs => map (fun _ => [7]) xs;
     criterion__adapt_criterion := criterion__adapt_criterion three_row_net |}.

Definition targets_only_batch : Xdict unit * list Z :=
  ({| X_ := [tt; tt];
      sample_domain := [(-1)%Z; (-1)%Z];
      sample_idx := [0%Z; 2%Z] |}, [0%Z; 0%Z]).

(** A network whose inputs are their own features. *)
Definition identity_net : NeuralNet vec :=
  {| module_training := true;
     module_forward := fun _ xs => (xs, xs);
     predict_features := fun xs => xs;
     criterion__adapt_criterion :=
       {| memory_features := []; memory_outputs := []; target_kmeans := None |} |}.

(** Three classes [0], [1], [2]; the source samples carry the labels [0] and
    [2], so class [1] has no source sample; one target sample. *)
Definition gap_dataset : Dataset vec :=
  {| dataset_X :=
       {| X_ := [[1; 0]; [0; 1]; [1; 1]];
          sample_domain := [0%Z; 0%Z; (-1)%Z];
          sample_idx := [0%Z; 1%Z; 2%Z] |};
     dataset_y := [0%Z; 2%Z; (-1)%Z] |}.

(** Two classes [0], [1]; the only source sample has label [1]. *)
Definition no_class0_dataset : Dataset vec :=
  {| dataset_X :=
       {| X_ := [[0; 1]; [1; 1]];
          sample_domain := [0%Z; (-1)%Z];
          sample_idx := [0%Z; 1%Z] |};
     dataset_y := [1%Z; (-1)%Z] |}.

(** One class with two source samples of the same feature [1]. *)
Definition twin_dataset : Dataset vec :=
  {| dataset_X :=
       {| X_ := [[1]; [1]; [3]];
          sample_domain := [0%Z; 0%Z; (-1)%Z];
          sample_idx := [0%Z; 1%Z; 2%Z] |};
     dataset_y := [0%Z; 0%Z; (-1)%Z] |}.

(** Two classes, three source samples of class [0] and two of class [1],
    and ten target samples. *)
Definition two_class_dataset : Dataset vec :=
  {| dataset_X :=
       {| X_ := [[1; 0]; [3; 4]; [0; 2]; [0; 1]; [1; 1]] ++ repeat [1; 2] 10;
          sample_domain := [0%Z; 0%Z; 1%Z; 0%Z; 1%Z] ++ repeat (-1)%Z 10;
          sample_idx := map Z.of_nat (seq 0 15) |};
     dataset_y := [0%Z; 1%Z; 0%Z; 0%Z; 1%Z] ++ repeat (-1)%Z 10 |}.

(** The target samples of [mixed_batch] among other source samples. *)
Definition mixed_batch_other_sources : Xdict unit * list Z :=
  ({| X_ := [tt; tt; tt; tt];
      sample_domain := [(-1)%Z; 3%Z; (-2)%Z; 0%Z];
      sample_idx := [0%Z; 5%Z; 2%Z; 7%Z] |}, [1%Z; 1%Z; 1%Z; 1%Z]).

(** Two training sets over [unit] inputs with the same two source samples
    of class [0] and different target samples. *)
Definition unit_dataset : Dataset unit :=
  {| dataset_X :=
       {| X_ := [tt; tt; tt];
          sample_domain := [0%Z; 0%Z; (-1)%Z];
          sample_idx := [0%Z; 1%Z; 2%Z] |};
     dataset_y := [0%Z; 0%Z; (-1)%Z] |}.

Definition unit_dataset_other_targets : Dataset unit :=
  {| dataset_X :=
       {| X_ := [tt; tt; tt; tt];
          sample_domain := [(-1)%Z; 0%Z; (-2)%Z; 0%Z];
          sample_idx := [0%Z; 1%Z; 2%Z; 3%Z] |};
     dataset_y := [5%Z; 0%Z; 6%Z; 0%Z] |}.

(** [k] batch-end updates on the same batch. *)
Fixpoint repeat_batch_end {input : Type} (self : ComputeMemoryBank)
    (batch : Xdict input * list Z) (k : nat) (net : NeuralNet input)
  : NeuralNet input :=
  match k with
  | O => net
  | S k' => repeat_batch_end self batch k' (snd (on_batch_end self batch net))
  end.

(** ** The memory a returning update leaves, in closed form *)

(** Whether some index of [idx] names row [j] of a tensor of [n] rows. *)
Definition names_row (n : nat) (idx : list Z) (j : nat) : bool :=
  existsb (fun i => match row_of n i with
                    | Some j' => Nat.eqb j' j
                    | None => false
                    end) idx.

(** The rows of [t] that [idx] names, multiplied by [a]; the others as they
    are. *)
Definition rescale_named (a : R) (idx : list Z) (t : tensor2) : tensor2 :=
  imap (fun j r => if names_row (length t) idx j then map (Rmult a) r else r) t.

(** The network with another clusterer, or none, in its criterion. *)
Definition with_target_kmeans {input : Type} (k : option SphericalKMeans)
    (net : NeuralNet input) : NeuralNet input :=
  with_criterion (fun c =>
    {| memory_features := memory_features c;
       memory_outputs := memory_outputs c;
       target_kmeans := k |}) net.

(** The network with its module switched to evaluation mode. *)
Definition in_eval_mode {input : Type} (net : NeuralNet input) : NeuralNet input :=
  {| module_training := false;
     module_forward := module_forward net;
     predict_features := predict_features net;
     criterion__adapt_criterion := criterion__adapt_criterion net |}.

(** A batch whose second target sample has an index beyond the three rows
    of the bank, and a batch with two input rows for a single domain
    indicator. *)
Definition out_of_range_batch : Xdict unit * list Z :=
  ({| X_ := [tt; tt];
      sample_domain := [(-1)%Z; (-1)%Z];
      sample_idx := [0%Z; 7%Z] |}, [0%Z; 0%Z]).

Definition ill_shaped_batch : Xdict unit * list Z :=
  ({| X_ := [tt; tt];
      sample_domain := [(-1)%Z];
      sample_idx := [0%Z] |}, [0%Z]).

(** A batch that names the rows of [mixed_batch] in another order and the
    first of them twice, and a batch on the middle row of the bank. *)
Definition shuffled_batch : Xdict unit * list Z :=
  ({| X_ := [tt; tt; tt];
      sample_domain := [(-1)%Z; (-1)%Z; (-4)%Z];
      sample_idx := [2%Z; 0%Z; 0%Z] |}, [0%Z; 0%Z; 0%Z]).

Definition middle_batch : Xdict unit * list Z :=
  ({| X_ := [tt; tt];
      sample_domain := [(-1)%Z; 2%Z];
      sample_idx := [1%Z; 0%Z] |}, [0%Z; 0%Z]).

(** A training set of target samples only, and one whose source labels
    start at [1]. *)
Definition target_only_dataset : Dataset vec :=
  {| dataset_X :=
       {| X_ := [[1; 0]; [0; 1]];
          sample_domain := [(-1)%Z; (-2)%Z];
          sample_idx := [0%Z; 1%Z] |};
     dataset_y := [(-1)%Z; (-1)%Z] |}.

Definition one_based_dataset : Dataset vec :=
  {| dataset_X :=
       {| X_ := [[1; 0]; [0; 1]; [1; 1]];
          sample_domain := [0%Z; 0%Z; (-1)%Z];
          sample_idx := [0%Z; 1%Z; 2%Z] |};
     dataset_y := [1%Z; 2%Z; (-1)%Z] |}.

(** ** examples/plot_method_comparison.py: the grid of panels *)

Module PlotMethodComparison.

Local Open Scope string_scope.

Inductive estimator : Type :=
| SVC
| ReweightDensity
| GaussianReweightDensity
| DiscriminatorReweightDensity
| KLIEP
| SubspaceAlignment
| TransferComponentAnalysis
| OTmapping
| EntropicOTmapping
| ClassRegularizerOTmapping
| LinearOTmapping
| CORAL.

(** The list [names] of lines 44-57.  No comma follows ["KLIEP"], so this
    literal and the next one, ["Subspace Alignment"], are one string. *)
Definition names : list String.string :=
  [ "Without da";
    "Reweight Density";
    "Gaussian Reweight Density";
    "Discr. Reweight Density";
    "KLIEPSubspace Alignment";
    "TCA";
    "OT mapping";
    "Entropic OT mapping";
    "Class Regularizer OT mapping";
    "Linear OT mapping";
    "CORAL" ].

(** The list [classifiers] of lines 59-75, by the class of each entry. *)
Definition classifiers : list estimator :=
  [ SVC;
    ReweightDensity;
    GaussianReweightDensity;
    DiscriminatorReweightDensity;
    KLIEP;
    SubspaceAlignment;
    TransferComponentAnalysis;
    OTmapping;
    EntropicOTmapping;
    ClassRegularizerOTmapping;
    LinearOTmapping;
    CORAL ].

(** The number of rows of the grid of line 112. *)
Definition n_rows (classifiers : list estimator) : nat :=
  (length classifiers + 2)%nat.

(** What one turn of the loop of lines 160-193 does: it draws on
    [axes[i, ds_cnt]], fits the estimator without the target data when its
    name is ["Without da"] and with them otherwise, and labels the row with
    the name in the first column. *)
Record panel : Type := {
  panel_row : nat;
  panel_col : nat;
  panel_estimator : estimator;
  fit_with_target : bool;
  panel_ylabel : option String.string
}.

Fixpoint classifier_loop (ds_cnt : nat) (i : nat)
    (pairs : list (String.string * estimator)) : list panel :=
  match pairs with
  | [] => []
  | (name, clf) :: rest =>
      {| panel_row := i;
         panel_col := ds_cnt;
         panel_estimator := clf;
         fit_with_target := negb (String.eqb name "Without da");
         panel_ylabel := if Nat.eqb ds_cnt 0 then Some name else None |}
      :: classifier_loop ds_cnt (S i) rest
  end.

(** The panels of the data set in column [ds_cnt]: [i] starts at [2] and
    the loop runs over [zip(names, classifiers)]. *)
Definition panels (names : list String.string) (classifiers : list estimator)
    (ds_cnt : nat) : list panel :=
  classifier_loop ds_cnt 2 (combine names classifiers).

End PlotMethodComparison.

(** ** Line 110 in binary32 *)

(** The tensors of the callbacks are float32.  [Float32] runs line 110,
    [softmax_out**2 / ((softmax_out**2).sum(dim=0))], on the softmax outputs
    as binary32 numbers with the IEEE 754 operations of the standard library
    (precision 24, maximal exponent 128, round to nearest even): the square
    is a rounded product, the column sums add the rows in order, and the
    division of a zero by a zero is a NaN. *)
Module Float32.

Definition float32 : Type := SpecFloat.spec_float.
Definition tensor32 : Type := list (list float32).

Definition mul (x y : float32) : float32 := SpecFloat.SFmul 24 128 x y.
Definition add (x y : float32) : float32 := SpecFloat.SFadd 24 128 x y.
Definition div (x y : float32) : float32 := SpecFloat.SFdiv 24 128 x y.

(** [1.0], [+0.0] and the subnormal number [27 * 2^-149], about [3.78e-44]:
    the binary32 value of [exp(-100)]. *)
Definition one : float32 := SpecFloat.S754_finite false 8388608 (-23).
Definition zero : float32 := SpecFloat.S754_zero false.
Definition exp_minus_100 : float32 := SpecFloat.S754_finite false 27 (-149).
Definition nan : float32 := SpecFloat.S754_nan.

(** [t ** 2], [t.sum(dim=0)] and [t / d] as in [Torch], on binary32. *)
Definition square32 (t : tensor32) : tensor32 := map (map (fun x => mul x x)) t.

Definition vadd32 (a b : list float32) : list float32 := zip_with add a b.

Definition sum_dim0_32 (t : tensor32) : list float32 :=
  match t with
  | [] => []
  | r :: rs => fold_left vadd32 rs r
  end.

Definition div_rows32 (t : tensor32) (d : list float32) : tensor32 :=
  map (fun r => zip_with div r d) t.

(** Line 110 on the softmax outputs of line 109. *)
Definition outputs_target32 (softmax_out : tensor32) : tensor32 :=
  div_rows32 (square32 softmax_out) (sum_dim0_32 (square32 softmax_out)).

End Float32.

(** ** The class centroid in the words of the specification *)

(** The L2-normalised vector [v / ||v||] and, for a list of (feature, label)
    pairs of [d] coordinates, the sum of the L2-normalised feature vectors of
    the samples of class [c]. *)
Definition l2_normalized_spec (v : vec) : vec :=
  map (fun x => x / sqrt (fold_right Rplus 0 (map (fun y => y * y) v))) v.

Definition class_centroid_spec (d : nat) (samples : list (vec * Z)) (c : Z) : vec :=
  map (fun j =>
         fold_right Rplus 0
           (map (fun s => nth j (l2_normalized_spec (fst s)) 0)
                (List.filter (fun s => (snd s =? c)%Z) samples)))
      (seq 0 d).

(** Three classes [0], [1], [2]; the source samples are [(3, 4)] of class [0]
    and [(0, 2)] of class [2]; one target sample. *)
Definition upper_class_dataset : Dataset vec :=
  {| dataset_X :=
       {| X_ := [[3; 4]; [0; 2]; [1; 1]];
          sample_domain := [0%Z; 0%Z; (-1)%Z];
          sample_idx := [0%Z; 1%Z; 2%Z] |};
     dataset_y := [0%Z; 2%Z; (-1)%Z] |}.

(** ** Indexing lemmas *)

Section Indexing.

Context {A : Type}.
Implicit Types (t : list A) (idx : list Z).

Lemma row_of_lt n i j : row_of n i = Some j -> (j < n)%nat.
Proof.
  unfold row_of.
  destruct ((0 <=? i) && (i <? Z.of_nat n))%Z eqn:E1.
  - intros [= <-]. apply andb_prop in E1 as [H1 H2]. lia.
  - destruct ((- Z.of_nat n <=? i) && (i <? 0))%Z eqn:E2; [|discriminate].
    intros [= <-]. apply andb_prop in E2 as [H1 H2]. lia.
Qed.

Lemma row_of_nonneg n i j :
  (0 <= i)%Z -> row_of n i = Some j <-> (i = Z.of_nat j /\ (j < n)%nat).
Proof.
  intros Hi. unfold row_of.
  destruct ((0 <=? i) && (i <? Z.of_nat n))%Z eqn:E1.
  - apply andb_prop in E1 as [H1 H2]. split.
    + intros [= <-]. lia.
    + intros [-> _]. f_equal. lia.
  - destruct (Z.ltb_spec i 0) as [Hneg|_]; [lia|]. rewrite andb_false_r.
    split; [discriminate|]. intros [-> Hj].
    apply andb_false_iff in E1 as [E1|E1]; lia.
Qed.

Lemma named_dec n idx j :
  (exists i, In i idx /\ row_of n i = Some j) \/
  (forall i, In i idx -> row_of n i <> Some j).
Proof.
  induction idx as [|i0 idx [(i & Hi & Hj)|IH]].
  - right. intros i [].
  - left. exists i. simpl. auto.
  - destruct (row_of n i0) as [j0|] eqn:E.
    + destruct (Nat.eq_dec j0 j) as [->|Hne].
      * left. exists i0. simpl. auto.
      * right. intros i [<-|Hi]; [congruence|auto].
    + right. intros i [<-|Hi]; [congruence|auto].
Qed.

Lemma mask_select_shape t (mask : list bool) :
  length t = length mask ->
  mask_select t mask = Returned (map fst (List.filter snd (combine t mask))).
Proof.
  intros H. unfold mask_select. now rewrite H, Nat.eqb_refl.
Qed.

Lemma index_select_length t idx rows :
  index_select t idx = Returned rows -> length rows = length idx.
Proof.
  revert rows. induction idx as [|i idx IH]; intros rows; simpl.
  - now intros [= <-].
  - destruct (row_of (length t) i) as [j|]; [|discriminate].
    destruct (t !! j) as [r|]; [|discriminate].
    destruct (index_select t idx) as [rs|e]; simpl; [|discriminate].
    intros [= <-]. simpl. f_equal. now apply IH.
Qed.

Lemma index_select_in_range t idx :
  in_range t idx -> exists rows, index_select t idx = Returned rows.
Proof.
  induction 1 as [|i idx Hi _ [rows IH]]; simpl; [eauto|].
  destruct (row_of (length t) i) as [j|] eqn:E; [|congruence].
  apply row_of_lt in E. apply lookup_lt_is_Some_2 in E as [r ->].
  rewrite IH. simpl. eauto.
Qed.

(** Writing back what was gathered through the same indices succeeds. *)
Lemma index_put_returns t0 idx rows (f : A -> A) :
  index_select t0 idx = Returned rows ->
  forall t, length t = length t0 ->
  exists t', index_put t idx (map f rows) = Returned t' /\
             length t' = length t0.
Proof.
  revert rows. induction idx as [|i idx IH]; intros rows; simpl.
  - intros [= <-] t Ht. simpl. eauto.
  - destruct (row_of (length t0) i) as [j|] eqn:E; [|discriminate].
    destruct (t0 !! j) as [r|]; [|discriminate].
    destruct (index_select t0 idx) as [rs|e]; simpl; [|discriminate].
    intros [= <-] t Ht. simpl. rewrite Ht, E.
    apply (IH rs eq_refl). now rewrite length_insert.
Qed.

Lemma index_put_length t idx v t' :
  index_put t idx v = Returned t' -> length t' = length t.
Proof.
  revert t v. induction idx as [|i idx IH]; intros t [|r v]; simpl;
    try discriminate.
  - now intros [= <-].
  - destruct (row_of (length t) i) as [j|]; [|discriminate].
    intros H. apply IH in H. now rewrite length_insert in H.
Qed.

(** The rows no index names are left as they were. *)
Lemma index_put_frame t idx v t' j :
  index_put t idx v = Returned t' ->
  (forall i, In i idx -> row_of (length t) i <> Some j) ->
  t' !! j = t !! j.
Proof.
  revert t v. induction idx as [|i idx IH]; intros t [|r v]; simpl;
    try discriminate.
  - now intros [= <-].
  - destruct (row_of (length t) i) as [k|] eqn:E; [|discriminate].
    intros H Hnot. apply IH in H.
    + rewrite H. apply list_lookup_insert_ne.
      intros ->. apply (Hnot i); auto.
    + rewrite length_insert. intros i' Hi'. apply Hnot. auto.
Qed.

(** A named row receives the image of what it held when the rows were
    gathered, however often it is named. *)
Lemma index_put_written t0 idx rows (f : A -> A) :
  index_select t0 idx = Returned rows ->
  forall t t' i j,
    length t = length t0 ->
    index_put t idx (map f rows) = Returned t' ->
    In i idx -> row_of (length t0) i = Some j ->
    t' !! j = f <$> t0 !! j.
Proof.
  revert rows. induction idx as [|i0 idx IH]; intros rows; simpl.
  - intros _ t t' i j _ _ [].
  - destruct (row_of (length t0) i0) as [j0|] eqn:E0; [|discriminate].
    destruct (t0 !! j0) as [r|] eqn:Er; [|discriminate].
    destruct (index_select t0 idx) as [rs|e] eqn:Es; simpl; [|discriminate].
    intros [= <-] t t' i j Ht. simpl. rewrite Ht, E0. intros Hput Hin Hj.
    destruct (named_dec (length t0) idx j) as [(i' & Hi' & Hj')|Hno].
    + apply (IH rs eq_refl (<[j0 := f r]> t) t' i' j);
        [now rewrite length_insert | exact Hput | exact Hi' | exact Hj'].
    + destruct Hin as [->|Hin]; [|exfalso; exact (Hno i Hin Hj)].
      assert (j0 = j) as -> by congruence.
      erewrite index_put_frame; [| exact Hput |].
      * rewrite Er. simpl. apply list_lookup_insert_eq.
        rewrite Ht. eapply row_of_lt; eauto.
      * rewrite length_insert, Ht. intros i' Hi' Hj'.
        exact (Hno i' Hi' Hj').
Qed.

End Indexing.

(** ** The batch-end update, by sample *)

Section MemoryBank.

Context {input : Type}.
Implicit Types (X : Xdict input) (net : NeuralNet input).

Lemma select_by_domain {B C : Type} (p : Z -> bool) (g : input * Z * C -> B)
    (col : list B) (xs : list input) (ds : list Z) (cs : list C) :
  length xs = length ds -> length cs = length ds ->
  col = map g (combine (combine xs ds) cs) ->
  map fst (List.filter snd (combine col (map p ds))) =
  map g (List.filter (fun s => p (snd (fst s))) (combine (combine xs ds) cs)).
Proof.
  intros Hx Hc ->. revert ds cs Hx Hc.
  induction xs as [|x xs IH]; intros [|d ds] [|c cs] Hx Hc;
    simpl in *; try reflexivity; try discriminate.
  destruct (p d); simpl; f_equal; apply IH; lia.
Qed.

Lemma combine_fst_fst {C : Type} (xs : list input) (ds : list Z) (cs : list C) :
  length xs = length ds -> length cs = length ds ->
  xs = map (fun s => fst (fst s)) (combine (combine xs ds) cs).
Proof.
  revert ds cs. induction xs as [|x xs IH]; intros [|d ds] [|c cs] Hx Hc;
    simpl in *; try reflexivity; try discriminate.
  f_equal. apply IH; lia.
Qed.

Lemma combine_snd {C : Type} (xs : list input) (ds : list Z) (cs : list C) :
  length xs = length ds -> length cs = length ds ->
  cs = map snd (combine (combine xs ds) cs).
Proof.
  revert ds cs. induction xs as [|x xs IH]; intros [|d ds] [|c cs] Hx Hc;
    simpl in *; try reflexivity; try discriminate.
  f_equal. apply IH; lia.
Qed.

Lemma target_inputs_selected X :
  well_shaped X ->
  mask_select (X_ X) (lt_scalar (sample_domain X) 0) =
  Returned (map (fun s => fst (fst s)) (target_samples X)).
Proof.
  intros [Hx Hi]. rewrite mask_select_shape
    by (unfold lt_scalar; now rewrite length_map).
  f_equal. unfold lt_scalar, target_samples, batch_samples.
  apply (select_by_domain (fun d => (d <? 0)%Z) (fun s => fst (fst s))
           (X_ X) (X_ X) (sample_domain X) (sample_idx X) Hx Hi).
  now apply combine_fst_fst.
Qed.

Lemma target_idx_selected X :
  well_shaped X ->
  mask_select (sample_idx X) (lt_scalar (sample_domain X) 0) =
  Returned (target_sample_idx X).
Proof.
  intros [Hx Hi]. rewrite mask_select_shape
    by (unfold lt_scalar; now rewrite length_map).
  f_equal. unfold lt_scalar, target_sample_idx, target_samples, batch_samples.
  apply (select_by_domain (fun d => (d <? 0)%Z) snd
           (sample_idx X) (X_ X) (sample_domain X) (sample_idx X) Hx Hi).
  now apply combine_snd.
Qed.

(** The network after [on_batch_end]: the module is in evaluation mode and
    the criterion went through [memory_step]. *)
Lemma on_batch_end_run (self : ComputeMemoryBank) X (y : list Z) net :
  well_shaped X ->
  on_batch_end self (X, y) net =
  let r := memory_step (momentum self) (target_sample_idx X)
                       (criterion__adapt_criterion net) in
  (fst r,
   {| module_training := false;
      module_forward := module_forward net;
      predict_features := predict_features net;
      criterion__adapt_criterion := snd r |}).
Proof.
  intros HX. unfold on_batch_end, bind, lift. simpl.
  rewrite (target_inputs_selected X HX), (target_idx_selected X HX).
  unfold memory_step. simpl.
  destruct (index_select _ _) as [old_f|e]; [|reflexivity].
  destruct (index_select _ _) as [old_o|e]; [|reflexivity].
  destruct (index_put _ _ _) as [mf'|e]; [|reflexivity]. simpl.
  destruct (index_put _ _ _) as [mo'|e]; reflexivity.
Qed.

(** Without target indices nothing is gathered and nothing is written. *)
Lemma memory_step_nil (m : R) (c : AdaptCriterion) :
  memory_step m [] c = (Returned tt, c).
Proof. destruct c. reflexivity. Qed.

Lemma memory_step_returns (m : R) (idx : list Z) (c : AdaptCriterion) :
  in_range (memory_features c) idx -> in_range (memory_outputs c) idx ->
  fst (memory_step m idx c) = Returned tt.
Proof.
  intros Hf Ho. unfold memory_step, scale.
  destruct (index_select_in_range _ _ Hf) as [old_f Ef].
  destruct (index_select_in_range _ _ Ho) as [old_o Eo].
  rewrite Ef, Eo.
  destruct (index_put_returns _ _ _ (map (Rmult (1 - m))) Ef
              (memory_features c) eq_refl) as (mf' & -> & _).
  destruct (index_put_returns _ _ _ (map (Rmult (1 - m))) Eo
              (memory_outputs c) eq_refl) as (mo' & -> & _).
  reflexivity.
Qed.

Lemma memory_step_frame (m : R) (idx : list Z) (c : AdaptCriterion) (j : nat) :
  (forall i, In i idx -> row_of (length (memory_features c)) i <> Some j) ->
  memory_features (snd (memory_step m idx c)) !! j = memory_features c !! j.
Proof.
  intros Hnot. unfold memory_step.
  destruct (index_select _ _) as [old_f|e]; [|reflexivity].
  destruct (index_select _ _) as [old_o|e]; [|reflexivity].
  destruct (index_put (memory_features c) _ _) as [mf'|e] eqn:Ef; [|reflexivity].
  assert (mf' !! j = memory_features c !! j) as H
    by (eapply index_put_frame; eauto).
  destruct (index_put (memory_outputs c) _ _) as [mo'|e]; exact H.
Qed.

Lemma memory_step_frame_outputs (m : R) (idx : list Z) (c : AdaptCriterion)
    (j : nat) :
  (forall i, In i idx -> row_of (length (memory_outputs c)) i <> Some j) ->
  memory_outputs (snd (memory_step m idx c)) !! j = memory_outputs c !! j.
Proof.
  intros Hnot. unfold memory_step.
  destruct (index_select _ _) as [old_f|e]; [|reflexivity].
  destruct (index_select _ _) as [old_o|e]; [|reflexivity].
  destruct (index_put (memory_features c) _ _) as [mf'|e]; [|reflexivity].
  destruct (index_put (memory_outputs c) _ _) as [mo'|e] eqn:Eo; [|reflexivity].
  simpl. eapply index_put_frame; eauto.
Qed.

(** What a returning step wrote: [1 - m] times the row's old value. *)
Lemma memory_step_written (m : R) (idx : list Z) (c : AdaptCriterion)
    (i : Z) (j : nat) :
  fst (memory_step m idx c) = Returned tt -> In i idx ->
  (row_of (length (memory_features c)) i = Some j ->
   memory_features (snd (memory_step m idx c)) !! j =
   map (Rmult (1 - m)) <$> memory_features c !! j) /\
  (row_of (length (memory_outputs c)) i = Some j ->
   memory_outputs (snd (memory_step m idx c)) !! j =
   map (Rmult (1 - m)) <$> memory_outputs c !! j).
Proof.
  unfold memory_step, scale.
  destruct (index_select (memory_features c) idx) as [old_f|e] eqn:Ef;
    [|discriminate].
  destruct (index_select (memory_outputs c) idx) as [old_o|e] eqn:Eo;
    [|discriminate].
  destruct (index_put (memory_features c) _ _) as [mf'|e] eqn:Pf;
    [|discriminate].
  destruct (index_put (memory_outputs c) _ _) as [mo'|e] eqn:Po;
    [|discriminate].
  simpl. intros _ Hin. split; intros Hj.
  - eapply (index_put_written _ _ _ (map (Rmult (1 - m))) Ef); eauto.
  - eapply (index_put_written _ _ _ (map (Rmult (1 - m))) Eo); eauto.
Qed.

End MemoryBank.

(** ** The memory bank: what the update writes *)

Lemma no_target_samples {input : Type} (X : Xdict input) :
  Forall (fun d => (0 <= d)%Z) (sample_domain X) -> target_sample_idx X = [].
Proof.
  intros Hall. unfold target_sample_idx, target_samples, batch_samples.
  assert (forall (xs : list input) (cs : list Z),
    List.filter is_target (combine (combine xs (sample_domain X)) cs) = [])
    as H; [|now rewrite H].
  induction Hall as [|d ds Hd _ IH]; intros [|x xs] [|c cs]; simpl;
    try reflexivity.
  unfold is_target at 1. simpl.
  destruct (Z.ltb_spec d 0); [lia|]. apply IH.
Qed.

Lemma ill_shaped_raises {input : Type} (self : ComputeMemoryBank)
    (X : Xdict input) (y : list Z) (net : NeuralNet input) :
  ~ well_shaped X -> snd (on_batch_end self (X, y) net) = net.
Proof.
  intros Hno. unfold on_batch_end, bind, lift, mask_select, lt_scalar. simpl.
  rewrite !length_map.
  destruct (Nat.eqb_spec (length (X_ X)) (length (sample_domain X)));
    [|reflexivity].
  destruct (Nat.eqb_spec (length (sample_idx X)) (length (sample_domain X)));
    [|reflexivity].
  exfalso. apply Hno. now split.
Qed.

Lemma well_shaped_dec {input : Type} (X : Xdict input) :
  well_shaped X \/ ~ well_shaped X.
Proof.
  unfold well_shaped.
  destruct (Nat.eq_dec (length (X_ X)) (length (sample_domain X)));
    destruct (Nat.eq_dec (length (sample_idx X)) (length (sample_domain X)));
    tauto.
Qed.

(** C6: the batch-end update leaves every memory row that no target sample
    index of the batch names exactly as it was, in [memory_features] and in
    [memory_outputs]. *)
Theorem on_batch_end_frame {input : Type} (self : ComputeMemoryBank)
    (X : Xdict input) (y : list Z) (net : NeuralNet input) (j : nat) :
  (forall i, In i (target_sample_idx X) ->
     row_of (length (memory_features (criterion__adapt_criterion net))) i <> Some j) ->
  (forall i, In i (target_sample_idx X) ->
     row_of (length (memory_outputs (criterion__adapt_criterion net))) i <> Some j) ->
  let net' := snd (on_batch_end self (X, y) net) in
  memory_features (criterion__adapt_criterion net') !! j =
    memory_features (criterion__adapt_criterion net) !! j /\
  memory_outputs (criterion__adapt_criterion net') !! j =
    memory_outputs (criterion__adapt_criterion net) !! j.
Proof.
  intros Hf Ho. destruct (well_shaped_dec X) as [HX|HX].
  - rewrite (on_batch_end_run self X y net HX). simpl. split.
    + now apply memory_step_frame.
    + now apply memory_step_frame_outputs.
  - simpl. now rewrite (ill_shaped_raises self X y net HX).
Qed.

Lemma on_batch_end_frame_witness :
  let net' := snd (on_batch_end {| momentum := 7 / 10 |} mixed_batch three_row_net) in
  memory_features (criterion__adapt_criterion net') !! 1%nat = Some [2] /\
  memory_outputs (criterion__adapt_criterion net') !! 1%nat = Some [1].
Proof.
  apply (on_batch_end_frame {| momentum := 7 / 10 |} (fst mixed_batch)
           (snd mixed_batch) three_row_net 1).
  - simpl. intros i [<-|[<-|[]]]; vm_compute; discriminate.
  - simpl. intros i [<-|[<-|[]]]; vm_compute; discriminate.
Defined.

(** C8: on a batch without target rows the batch-end update returns without
    raising and leaves [memory_features] and [memory_outputs] as they were. *)
Theorem on_batch_end_no_target_rows {input : Type} (self : ComputeMemoryBank)
    (X : Xdict input) (y : list Z) (net : NeuralNet input) :
  well_shaped X ->
  Forall (fun d => (0 <= d)%Z) (sample_domain X) ->
  let r := on_batch_end self (X, y) net in
  fst r = Returned tt /\
  memory_features (criterion__adapt_criterion (snd r)) =
    memory_features (criterion__adapt_criterion net) /\
  memory_outputs (criterion__adapt_criterion (snd r)) =
    memory_outputs (criterion__adapt_criterion net).
Proof.
  intros HX Hsrc. rewrite (on_batch_end_run self X y net HX).
  rewrite (no_target_samples X Hsrc), memory_step_nil. simpl. auto.
Qed.

Lemma on_batch_end_no_target_rows_witness :
  let r := on_batch_end {| momentum := 7 / 10 |} source_only_batch three_row_net in
  fst r = Returned tt /\
  memory_features (criterion__adapt_criterion (snd r)) = [[1]; [2]; [3]] /\
  memory_outputs (criterion__adapt_criterion (snd r)) = [[1]; [1]; [1]].
Proof.
  apply (on_batch_end_no_target_rows {| momentum := 7 / 10 |}
           (fst source_only_batch) (snd source_only_batch) three_row_net).
  - split; reflexivity.
  - simpl. repeat constructor; lia.
Defined.

(** C10: whatever the mode of the module before the call, the batch-end
    update leaves it in evaluation mode: the flag is cleared and not set
    back, whether the update returns or the memory indexing raises. *)
Theorem on_batch_end_leaves_eval {input : Type} (self : ComputeMemoryBank)
    (X : Xdict input) (y : list Z) (net : NeuralNet input) :
  well_shaped X ->
  module_training (snd (on_batch_end self (X, y) net)) = false.
Proof.
  intros HX. now rewrite (on_batch_end_run self X y net HX).
Qed.

Lemma on_batch_end_leaves_eval_witness :
  module_training three_row_net = true /\
  module_training
    (snd (on_batch_end {| momentum := 7 / 10 |} mixed_batch three_row_net)) = false.
Proof.
  split; [reflexivity|].
  apply (on_batch_end_leaves_eval {| momentum := 7 / 10 |} (fst mixed_batch)
           (snd mixed_batch) three_row_net).
  split; reflexivity.
Defined.

(** C9: two batch-end updates that start from the same memories with the
    same momentum, on batches with the same target sample indices, end alike
    and in the same memories, whatever the two modules compute and whatever
    else the batches hold; when the indices are in range the update returns
    and every named row holds [1 - momentum] times its old value. *)
Theorem on_batch_end_ignores_new_values {input : Type}
    (self : ComputeMemoryBank) (X1 X2 : Xdict input) (y1 y2 : list Z)
    (net1 net2 : NeuralNet input) :
  well_shaped X1 -> well_shaped X2 ->
  criterion__adapt_criterion net1 = criterion__adapt_criterion net2 ->
  target_sample_idx X1 = target_sample_idx X2 ->
  let c := criterion__adapt_criterion net1 in
  let r1 := on_batch_end self (X1, y1) net1 in
  let r2 := on_batch_end self (X2, y2) net2 in
  fst r1 = fst r2 /\
  criterion__adapt_criterion (snd r1) = criterion__adapt_criterion (snd r2) /\
  (in_range (memory_features c) (target_sample_idx X1) ->
   in_range (memory_outputs c) (target_sample_idx X1) ->
   fst r1 = Returned tt /\
   forall i j, In i (target_sample_idx X1) ->
     (row_of (length (memory_features c)) i = Some j ->
      memory_features (criterion__adapt_criterion (snd r1)) !! j =
      map (Rmult (1 - momentum self)) <$> memory_features c !! j) /\
     (row_of (length (memory_outputs c)) i = Some j ->
      memory_outputs (criterion__adapt_criterion (snd r1)) !! j =
      map (Rmult (1 - momentum self)) <$> memory_outputs c !! j)).
Proof.
  intros H1 H2 Hc Hidx. simpl.
  rewrite (on_batch_end_run self X1 y1 net1 H1).
  rewrite (on_batch_end_run self X2 y2 net2 H2). simpl.
  rewrite <- Hc, <- Hidx. repeat split; try reflexivity.
  - now apply memory_step_returns.
  - now apply memory_step_written; [apply memory_step_returns|].
  - now apply memory_step_written; [apply memory_step_returns|].
Qed.

Lemma on_batch_end_ignores_new_values_witness :
  let r1 := on_batch_end {| momentum := 7 / 10 |} mixed_batch three_row_net in
  let r2 := on_batch_end {| momentum := 7 / 10 |} targets_only_batch
                         three_row_net_other_module in
  module_forward three_row_net false [tt] <>
    module_forward three_row_net_other_module false [tt] /\
  fst r1 = fst r2 /\
  criterion__adapt_criterion (snd r1) = criterion__adapt_criterion (snd r2).
Proof.
  split.
  - simpl. intros [= H _]. lra.
  - destruct (on_batch_end_ignores_new_values {| momentum := 7 / 10 |}
                (fst mixed_batch) (fst targets_only_batch)
                (snd mixed_batch) (snd targets_only_batch)
                three_row_net three_row_net_other_module)
      as (Hout & Hcrit & _).
    + split; reflexivity.
    + split; reflexivity.
    + reflexivity.
    + reflexivity.
    + split; assumption.
Defined.

Lemma normalize_eps_pos : 0 < normalize_eps.
Proof. unfold normalize_eps. apply Rinv_0_lt_compat. simpl. lra. Qed.

Lemma normalize_eps_le_1 : normalize_eps <= 1.
Proof.
  unfold normalize_eps. rewrite <- Rinv_1.
  apply Rinv_le_contravar; simpl; lra.
Qed.

Lemma one_row_step (b : bool) (v : R) :
  on_batch_end {| momentum := 7 / 10 |} one_target_batch (one_row_net b v) =
  (Returned tt, one_row_net false ((1 - 7 / 10) * v)).
Proof. reflexivity. Qed.

Lemma one_row_repeat (k : nat) (b : bool) (v : R) :
  criterion__adapt_criterion
    (repeat_batch_end {| momentum := 7 / 10 |} one_target_batch k
       (one_row_net b v)) =
  {| memory_features := [[(3 / 10) ^ k * v]];
     memory_outputs := [[(3 / 10) ^ k * v]];
     target_kmeans := None |}.
Proof.
  revert b v. induction k as [|k IH]; intros b v.
  - simpl. now replace (1 * v) with v by lra.
  - cbn [repeat_batch_end]. rewrite one_row_step. cbn [snd]. rewrite IH.
    replace ((3 / 10) ^ k * ((1 - 7 / 10) * v)) with ((3 / 10) ^ S k * v)
      by (simpl; lra).
    reflexivity.
Qed.

(** C1: on a bank whose row holds [v0 = 1], with momentum [7/10] and the
    newly computed value [v1 = 1] for the features and for the outputs, the
    batch-end update returns and writes [(1 - 7/10) * 1 = 3/10] in both
    memories, where the moving average [m * v1 + (1 - m) * v0] is [1]; [k]
    such updates leave [(3/10) ^ k], which tends to [0] and not to [v1]. *)
Theorem on_batch_end_drops_new_term :
  let self := {| momentum := 7 / 10 |} in
  let net := one_row_net true 1 in
  let r := on_batch_end self one_target_batch net in
  let forwarded := module_forward net false [tt] in
  fst r = Returned tt /\
  normalize (snd forwarded) = [[1]] /\
  outputs_target_of (fst forwarded) = [[1]] /\
  ema_spec (7 / 10) [1] [1] = [1] /\
  memory_features (criterion__adapt_criterion (snd r)) = [[3 / 10]] /\
  memory_outputs (criterion__adapt_criterion (snd r)) = [[3 / 10]] /\
  forall k,
    memory_features (criterion__adapt_criterion
      (repeat_batch_end self one_target_batch k net)) = [[(3 / 10) ^ k]] /\
    memory_outputs (criterion__adapt_criterion
      (repeat_batch_end self one_target_batch k net)) = [[(3 / 10) ^ k]].
Proof.
  cbv zeta. rewrite one_row_step. cbn [fst snd].
  split; [reflexivity|]. split.
  { simpl. unfold normalize, normalize_row, norm2, sum_sq. simpl.
    replace (1 * 1 + 0) with 1 by lra. rewrite sqrt_1.
    rewrite Rmax_left by apply normalize_eps_le_1.
    repeat f_equal. lra. }
  split.
  { simpl. unfold outputs_target_of, softmax, softmax_row, square, div_rows,
      sum_dim0. simpl. rewrite exp_0. repeat f_equal. lra. }
  split.
  { unfold ema_spec. simpl. repeat f_equal. lra. }
  split.
  { simpl. repeat f_equal. lra. }
  split.
  { simpl. repeat f_equal. lra. }
  intros k. rewrite one_row_repeat. cbn [memory_features memory_outputs].
  now replace ((3 / 10) ^ k * 1) with ((3 / 10) ^ k) by lra.
Qed.

(** ** Column sums *)

Section Columns.

Implicit Types (a b d r : vec) (t rs : tensor2).

Lemma vadd_length a b c :
  length a = c -> length b = c -> length (vadd a b) = c.
Proof.
  revert b c. induction a as [|x a IH]; intros [|y b] c; simpl; intros;
    subst; try discriminate; try reflexivity.
  f_equal. apply IH; auto.
Qed.

Lemma vadd_pos a b :
  Forall (fun x => 0 < x) a -> Forall (fun x => 0 < x) b ->
  Forall (fun x => 0 < x) (vadd a b).
Proof.
  intros Ha. revert b. induction Ha as [|x a Hx _ IH]; intros b Hb.
  - constructor.
  - destruct Hb as [|y b Hy Hb]; simpl; constructor; [lra|now apply IH].
Qed.

Lemma div_vadd a b d :
  zip_with Rdiv (vadd a b) d =
  vadd (zip_with Rdiv a d) (zip_with Rdiv b d).
Proof.
  revert b d. induction a as [|x a IH]; intros [|y b] [|z d]; simpl;
    try reflexivity.
  f_equal; [unfold Rdiv; lra | apply IH].
Qed.

Lemma fold_vadd_div rs r d :
  fold_left vadd (map (fun r => zip_with Rdiv r d) rs) (zip_with Rdiv r d) =
  zip_with Rdiv (fold_left vadd rs r) d.
Proof.
  revert r. induction rs as [|r' rs IH]; intros r; simpl; [reflexivity|].
  now rewrite <- div_vadd, IH.
Qed.

Lemma sum_dim0_div_rows t d :
  sum_dim0 (div_rows t d) = zip_with Rdiv (sum_dim0 t) d.
Proof.
  destruct t as [|r rs]; simpl; [reflexivity|]. apply fold_vadd_div.
Qed.

Lemma fold_vadd_pos c rs r :
  length r = c -> Forall (fun x => 0 < x) r ->
  rectangular c rs -> Forall (Forall (fun x => 0 < x)) rs ->
  length (fold_left vadd rs r) = c /\
  Forall (fun x => 0 < x) (fold_left vadd rs r).
Proof.
  intros Hr Hp Hrect. revert r Hr Hp.
  induction Hrect as [|r' rs Hr' _ IH]; intros r Hr Hp Hpos; simpl; [auto|].
  inversion Hpos; subst. apply IH; auto.
  - now apply vadd_length.
  - now apply vadd_pos.
Qed.

Lemma div_self d :
  Forall (fun x => 0 < x) d -> zip_with Rdiv d d = repeat 1 (length d).
Proof.
  induction 1 as [|x d Hx _ IH]; simpl; [reflexivity|].
  f_equal; [|exact IH]. unfold Rdiv. apply Rinv_r. lra.
Qed.

Lemma vsum_exp_pos (v : vec) x : In x v -> 0 < vsum (map exp v).
Proof.
  assert (forall w : vec, 0 <= vsum (map exp w)) as Hnn.
  { induction w as [|y w IH]; simpl; [lra|].
    pose proof (exp_pos y). lra. }
  destruct v as [|y v]; [intros []|]. intros _. simpl.
  pose proof (exp_pos y). pose proof (Hnn v). lra.
Qed.

Lemma softmax_row_pos (v : vec) : Forall (fun x => 0 < x) (softmax_row v).
Proof.
  unfold softmax_row. apply List.Forall_forall. intros p Hp.
  apply in_map_iff in Hp as (x & <- & Hx).
  apply Rdiv_lt_0_compat; [apply exp_pos|]. now apply (vsum_exp_pos v x).
Qed.

Lemma square_softmax_shape c t :
  rectangular c t ->
  rectangular c (square (softmax t)) /\
  Forall (Forall (fun x => 0 < x)) (square (softmax t)).
Proof.
  induction 1 as [|r t Hr _ [IH1 IH2]]; simpl; [split; constructor|].
  split; constructor; auto.
  - unfold softmax_row. now rewrite !length_map.
  - pose proof (softmax_row_pos r) as Hp.
    induction Hp as [|x l Hx _ IHl]; simpl; constructor; [nra|exact IHl].
Qed.

End Columns.

(** In exact arithmetic every class column of
    [softmax**2 / (softmax**2).sum(dim=0)] sums to [1] over a batch with at
    least one target row: this is what the division of line 110 is for.  It
    rests on the exact softmax being positive, which the floating-point one
    is not; [Float32.outputs_target32] below runs the same line in binary32. *)
Theorem outputs_target_columns_sum_to_one (output_t : tensor2) (c : nat) :
  output_t <> [] -> rectangular c output_t ->
  sum_dim0 (outputs_target_of output_t) = repeat 1 c.
Proof.
  intros Hne Hrect. unfold outputs_target_of. rewrite sum_dim0_div_rows.
  destruct (square_softmax_shape c output_t Hrect) as [Hshape Hpos].
  destruct (square (softmax output_t)) as [|r rs] eqn:E.
  - destruct output_t; [congruence|discriminate].
  - simpl. inversion Hshape; subst. inversion Hpos; subst.
    destruct (fold_vadd_pos (length r) rs r) as [Hlen Hp]; auto.
    rewrite div_self by exact Hp. now rewrite Hlen.
Qed.

(** ** The epoch-begin pass, by sample *)

Section Centroids.

Context {input : Type}.
Implicit Types (ds : Dataset input) (net : NeuralNet input).

Lemma mask_sum_eq (y_s : list Z) (c : Z) :
  mask_sum (eq_scalar y_s c) = count_occ Z.eq_dec y_s c.
Proof.
  unfold mask_sum, eq_scalar. induction y_s as [|y y_s IH]; simpl;
    [reflexivity|].
  destruct (Z.eqb_spec y c) as [->|Hne]; simpl.
  - destruct (Z.eq_dec c c); [now rewrite IH|congruence].
  - destruct (Z.eq_dec y c); [congruence|exact IH].
Qed.

Lemma class_rows_selected (features_s : tensor2) (y_s : list Z) (c : Z) :
  length features_s = length y_s ->
  mask_select features_s (eq_scalar y_s c) =
  Returned (class_rows features_s y_s c).
Proof.
  intros H. rewrite mask_select_shape
    by (unfold eq_scalar; now rewrite length_map).
  f_equal. unfold class_rows, eq_scalar. revert y_s H.
  induction features_s as [|r rs IH]; intros [|y ys] H; simpl in *;
    try reflexivity; try discriminate.
  destruct (y =? c)%Z; simpl; f_equal; apply IH; lia.
Qed.

Lemma class_rows_length (features_s : tensor2) (y_s : list Z) (c : Z) :
  length features_s = length y_s ->
  length (class_rows features_s y_s c) = count_occ Z.eq_dec y_s c.
Proof.
  unfold class_rows. revert y_s.
  induction features_s as [|r rs IH]; intros [|y ys] H; simpl in *;
    try reflexivity; try discriminate.
  destruct (Z.eqb_spec y c) as [->|Hne]; simpl.
  - destruct (Z.eq_dec c c); [|congruence]. simpl. f_equal. apply IH. lia.
  - destruct (Z.eq_dec y c); [congruence|]. apply IH. lia.
Qed.

(** The loop appends the centroid of every class of [cs] that has a
    source sample, in the order of [cs]. *)
Lemma centroid_loop_run (features_s : tensor2) (y_s : list Z)
    (cs : list nat) (acc : list vec) :
  length features_s = length y_s ->
  centroid_loop features_s y_s cs acc =
  Returned (acc ++ map (class_centroid features_s y_s)
    (List.filter (fun c => (0 <? count_occ Z.eq_dec y_s (Z.of_nat c))%nat) cs)).
Proof.
  intros H. revert acc. induction cs as [|c cs IH]; intros acc; simpl.
  - now rewrite app_nil_r.
  - rewrite mask_sum_eq.
    destruct (0 <? count_occ Z.eq_dec y_s (Z.of_nat c))%nat.
    + rewrite class_rows_selected by exact H. simpl. rewrite IH.
      now rewrite <- app_assoc.
    + apply IH.
Qed.

Lemma source_inputs_selected ds :
  well_shaped_dataset ds ->
  mask_select (X_ (dataset_X ds)) (ge_scalar (sample_domain (dataset_X ds)) 0) =
  Returned (source_inputs ds).
Proof.
  intros [Hx Hy]. rewrite mask_select_shape
    by (unfold ge_scalar; now rewrite length_map).
  f_equal. unfold ge_scalar, source_inputs, source_of, dataset_samples.
  apply (select_by_domain (fun d => (0 <=? d)%Z) (fun s => fst (fst s))
           (X_ (dataset_X ds)) (X_ (dataset_X ds))
           (sample_domain (dataset_X ds)) (dataset_y ds) Hx Hy).
  now apply combine_fst_fst.
Qed.

Lemma source_labels_selected ds :
  well_shaped_dataset ds ->
  mask_select (dataset_y ds) (ge_scalar (sample_domain (dataset_X ds)) 0) =
  Returned (source_labels ds).
Proof.
  intros [Hx Hy]. rewrite mask_select_shape
    by (unfold ge_scalar; now rewrite length_map).
  f_equal. unfold ge_scalar, source_labels, source_of, dataset_samples.
  apply (select_by_domain (fun d => (0 <=? d)%Z) snd
           (dataset_y ds) (X_ (dataset_X ds))
           (sample_domain (dataset_X ds)) (dataset_y ds) Hx Hy).
  now apply combine_snd.
Qed.

Lemma dataset_targets_selected ds :
  well_shaped_dataset ds ->
  mask_select (X_ (dataset_X ds)) (lt_scalar (sample_domain (dataset_X ds)) 0) =
  Returned (target_inputs ds).
Proof.
  intros [Hx Hy]. rewrite mask_select_shape
    by (unfold lt_scalar; now rewrite length_map).
  f_equal. unfold lt_scalar, target_inputs, target_of, dataset_samples.
  apply (select_by_domain (fun d => (d <? 0)%Z) (fun s => fst (fst s))
           (X_ (dataset_X ds)) (X_ (dataset_X ds))
           (sample_domain (dataset_X ds)) (dataset_y ds) Hx Hy).
  now apply combine_fst_fst.
Qed.

Lemma source_shapes ds :
  length (source_inputs ds) = length (source_labels ds).
Proof. unfold source_inputs, source_labels. now rewrite !length_map. Qed.

Lemma on_epoch_begin_split ds net :
  well_shaped_dataset ds ->
  on_epoch_begin ds net =
  epoch_step (source_inputs ds) (source_labels ds) (target_inputs ds) net.
Proof.
  intros Hds. unfold on_epoch_begin, bind, lift. simpl.
  rewrite (source_inputs_selected ds Hds), (source_labels_selected ds Hds),
    (dataset_targets_selected ds Hds).
  unfold epoch_step. simpl.
  destruct (centroid_loop _ _ _ _) as [[|c cs]|e]; reflexivity.
Qed.

(** The whole pass when the feature extractor answers one row per source
    sample. *)
Lemma on_epoch_begin_run ds net :
  well_shaped_dataset ds ->
  length (predict_features net (source_inputs ds)) = length (source_inputs ds) ->
  on_epoch_begin ds net =
  match map (class_centroid (predict_features net (source_inputs ds))
                            (source_labels ds))
            (visited_classes (source_labels ds)) with
  | [] => (Raised RuntimeError, net)
  | c :: cs =>
      (Returned tt,
       with_criterion (fun crit =>
         {| memory_features := memory_features crit;
            memory_outputs := memory_outputs crit;
            target_kmeans :=
              Some {| n_clusters := n_unique (source_labels ds);
                      random_state := 0;
                      initial_centroids := c :: cs;
                      fitted_on := predict_features net (target_inputs ds) |} |})
         net)
  end.
Proof.
  intros Hds Hlen. rewrite (on_epoch_begin_split ds net Hds).
  unfold epoch_step. rewrite centroid_loop_run
    by (now rewrite Hlen, source_shapes).
  reflexivity.
Qed.

End Centroids.

(** C2: with three classes of which class [1] has no source sample, the
    source labels being [0] and [2], the epoch-begin pass returns a clusterer
    built with [n_clusters = 2] and a single initial centroid, that of class
    [0]: class [2] has a source sample and no centroid.  With two classes of
    which class [0] has no source sample, no centroid is computed at all and
    stacking the empty list raises. *)
Theorem on_epoch_begin_gap_class :
  let ys := source_labels gap_dataset in
  let fs := predict_features identity_net (source_inputs gap_dataset) in
  let r := on_epoch_begin gap_dataset identity_net in
  ys = [0%Z; 2%Z] /\
  fst r = Returned tt /\
  (exists km,
     target_kmeans (criterion__adapt_criterion (snd r)) = Some km /\
     n_clusters km = 2%nat /\
     initial_centroids km = [class_centroid fs ys 0] /\
     length (initial_centroids km) = 1%nat) /\
  source_labels no_class0_dataset = [1%Z] /\
  on_epoch_begin no_class0_dataset identity_net =
    (Raised RuntimeError, identity_net).
Proof.
  cbv zeta. split; [reflexivity|]. split; [reflexivity|]. split.
  - eexists. split; [reflexivity|]. repeat split; reflexivity.
  - split; reflexivity.
Qed.

(** ** Norms of normalised rows and of their sums *)

Section Norms.

Implicit Types (a b v : vec) (rows : tensor2).

Lemma sum_sq_nonneg v : 0 <= sum_sq v.
Proof.
  unfold sum_sq. induction v as [|x v IH]; simpl; [lra|]. nra.
Qed.

Lemma norm2_nonneg v : 0 <= norm2 v.
Proof. apply sqrt_pos. Qed.

Lemma norm2_sq v : norm2 v * norm2 v = sum_sq v.
Proof. apply sqrt_sqrt, sum_sq_nonneg. Qed.

Lemma sum_sq_cons x v : sum_sq (x :: v) = x * x + sum_sq v.
Proof. reflexivity. Qed.

(** The triangle inequality in the plane, on which the one for rows
    rests. *)
Lemma plane_triangle (x y p q P Q : R) :
  0 <= p -> 0 <= q -> 0 <= P -> 0 <= Q ->
  P * P = x * x + p * p -> Q * Q = y * y + q * q ->
  (x + y) * (x + y) + (p + q) * (p + q) <= (P + Q) * (P + Q).
Proof.
  intros Hp Hq HP HQ EP EQ.
  assert (x * y + p * q <= P * Q) as Hcs.
  { destruct (Rle_or_lt (x * y + p * q) (P * Q)) as [H|H]; [exact H|].
    exfalso.
    assert (0 <= P * Q) by nra.
    assert ((P * Q) * (P * Q) < (x * y + p * q) * (x * y + p * q)) by nra.
    assert ((P * Q) * (P * Q) = (x * x + p * p) * (y * y + q * q))
      by (rewrite <- EP, <- EQ; ring).
    pose proof (Rle_0_sqr (x * q - p * y)) as Hsq. unfold Rsqr in Hsq.
    assert ((x * y + p * q) * (x * y + p * q) =
            (x * x + p * p) * (y * y + q * q) -
            (x * q - p * y) * (x * q - p * y)) by ring.
    lra. }
  nra.
Qed.

Lemma sum_sq_vadd a b :
  sum_sq (vadd a b) <= (norm2 a + norm2 b) * (norm2 a + norm2 b).
Proof.
  assert (forall e : R, 0 <= e * e) as Hsq by (intros e; apply Rle_0_sqr).
  revert b. induction a as [|x a IH]; intros [|y b];
    try (change (sum_sq (vadd [] [])) with 0; apply Hsq);
    try (change (sum_sq (vadd [] (y :: b))) with 0; apply Hsq);
    try (change (sum_sq (vadd (x :: a) [])) with 0; apply Hsq).
  change (sum_sq (vadd (x :: a) (y :: b)))
    with ((x + y) * (x + y) + sum_sq (vadd a b)).
  specialize (IH b).
  pose proof (plane_triangle x y (norm2 a) (norm2 b)
                (norm2 (x :: a)) (norm2 (y :: b))
                (norm2_nonneg a) (norm2_nonneg b)
                (norm2_nonneg _) (norm2_nonneg _)) as Hpl.
  rewrite !norm2_sq, !sum_sq_cons in Hpl.
  specialize (Hpl eq_refl eq_refl). lra.
Qed.

Lemma norm2_vadd a b : norm2 (vadd a b) <= norm2 a + norm2 b.
Proof.
  pose proof (norm2_nonneg a). pose proof (norm2_nonneg b).
  unfold norm2 at 1.
  rewrite <- (sqrt_square (norm2 a + norm2 b)) by lra.
  apply sqrt_le_1_alt, sum_sq_vadd.
Qed.

Lemma sum_sq_scaled (k : R) v :
  sum_sq (map (fun x => x / k) v) = sum_sq v / (k * k).
Proof.
  destruct (Req_dec k 0) as [->|Hk].
  - induction v as [|x v IH]; simpl.
    + unfold Rdiv. now rewrite Rmult_0_l.
    + change (fold_right (fun x acc => x * x + acc) 0
                (map (fun x => x / 0) v)) with (sum_sq (map (fun x => x / 0) v)).
      change (fold_right (fun x acc => x * x + acc) 0 v) with (sum_sq v).
      rewrite IH. unfold Rdiv. rewrite Rmult_0_l, Rinv_0. ring.
  - induction v as [|x v IH]; simpl.
    + unfold Rdiv. now rewrite Rmult_0_l.
    + change (fold_right (fun x acc => x * x + acc) 0
                (map (fun x => x / k) v)) with (sum_sq (map (fun x => x / k) v)).
      change (fold_right (fun x acc => x * x + acc) 0 v) with (sum_sq v).
      rewrite IH. field. exact Hk.
Qed.

Lemma norm2_normalize_row v :
  norm2 (normalize_row v) = norm2 v / Rmax (norm2 v) normalize_eps.
Proof.
  unfold normalize_row.
  set (k := Rmax (norm2 v) normalize_eps).
  assert (0 < k) as Hk.
  { unfold k. pose proof normalize_eps_pos.
    pose proof (Rmax_r (norm2 v) normalize_eps). lra. }
  unfold norm2 at 1. rewrite sum_sq_scaled.
  rewrite sqrt_div_alt by nra.
  rewrite sqrt_square by lra. reflexivity.
Qed.

Lemma norm2_normalize_row_le v : norm2 (normalize_row v) <= 1.
Proof.
  rewrite norm2_normalize_row.
  set (k := Rmax (norm2 v) normalize_eps).
  assert (0 < k) as Hk.
  { unfold k. pose proof normalize_eps_pos.
    pose proof (Rmax_r (norm2 v) normalize_eps). lra. }
  pose proof (Rmax_l (norm2 v) normalize_eps) as Hl. fold k in Hl.
  apply Rmult_le_reg_r with k; [exact Hk|].
  unfold Rdiv. rewrite Rmult_assoc, Rinv_l by lra. lra.
Qed.

Lemma norm2_normalize_row_unit v :
  normalize_eps <= norm2 v -> norm2 (normalize_row v) = 1.
Proof.
  intros H. rewrite norm2_normalize_row, Rmax_left by exact H.
  pose proof normalize_eps_pos. unfold Rdiv. apply Rinv_r. lra.
Qed.

Lemma norm2_fold_vadd rows a :
  Forall (fun r => norm2 r <= 1) rows ->
  norm2 (fold_left vadd rows a) <= norm2 a + INR (length rows).
Proof.
  intros H. revert a. induction H as [|r rows Hr _ IH]; intros a.
  - simpl. lra.
  - cbn [fold_left]. specialize (IH (vadd a r)).
    pose proof (norm2_vadd a r). rewrite length_cons, S_INR. lra.
Qed.

(** The sum of [n] normalised rows has norm at most [n]. *)
Lemma norm2_sum_normalized rows :
  norm2 (sum_dim0 (normalize rows)) <= INR (length rows).
Proof.
  destruct rows as [|r rows].
  - simpl. unfold norm2. simpl. rewrite sqrt_0. lra.
  - cbn [normalize map sum_dim0].
    pose proof (norm2_fold_vadd (map normalize_row rows) (normalize_row r)) as H.
    rewrite length_map in H. rewrite length_cons, S_INR.
    pose proof (norm2_normalize_row_le r).
    assert (Forall (fun r => norm2 r <= 1) (map normalize_row rows)) as Hall.
    { apply List.Forall_forall. intros x Hx.
      apply in_map_iff in Hx as (v & <- & _). apply norm2_normalize_row_le. }
    specialize (H Hall). eapply Rle_trans; [exact H|].
    rewrite Rplus_comm. apply Rplus_le_compat_l. exact H0.
Qed.

End Norms.

(** ** Coordinates of a column sum *)

Section Coordinates.

Implicit Types (a b r : vec) (rows : tensor2).

Lemma nth_vadd a b (j : nat) :
  length a = length b ->
  nth j (vadd a b) 0 = nth j a 0 + nth j b 0.
Proof.
  revert b j. induction a as [|x a IH]; intros [|y b] [|j] H; simpl in *;
    try discriminate; try lra.
  apply IH. lia.
Qed.

Lemma nth_fold_vadd (d : nat) rows r (j : nat) :
  length r = d -> rectangular d rows ->
  nth j (fold_left vadd rows r) 0 =
  nth j r 0 + fold_right Rplus 0 (map (fun r' => nth j r' 0) rows).
Proof.
  intros Hr Hrect. revert r Hr.
  induction Hrect as [|r' rows Hr' _ IH]; intros r Hr; simpl; [lra|].
  rewrite IH by (apply vadd_length; assumption).
  rewrite nth_vadd by congruence. lra.
Qed.

Lemma fold_vadd_length (d : nat) rows r :
  length r = d -> rectangular d rows -> length (fold_left vadd rows r) = d.
Proof.
  intros Hr Hrect. revert r Hr.
  induction Hrect as [|r' rows Hr' _ IH]; intros r Hr; simpl; [exact Hr|].
  apply IH. now apply vadd_length.
Qed.

Lemma normalize_rectangular (d : nat) rows :
  rectangular d rows -> rectangular d (normalize rows).
Proof.
  induction 1 as [|r rows Hr _ IH]; simpl; constructor; [|exact IH].
  unfold normalize_row. now rewrite length_map.
Qed.

(** Coordinate [j] of the centroid of a non-empty group of rows is the sum
    over the group of coordinate [j] of the normalised rows. *)
Lemma sum_dim0_normalize_coordinates (d : nat) rows :
  rows <> [] -> rectangular d rows ->
  sum_dim0 (normalize rows) = map (sum_of_normalized rows) (seq 0 d).
Proof.
  intros Hne Hrect. destruct rows as [|r rows]; [congruence|].
  apply normalize_rectangular in Hrect as Hn.
  cbn [normalize map sum_dim0] in *.
  apply List.Forall_cons_iff in Hn as [Hr Hrows].
  apply nth_ext with (d := 0) (d' := 0).
  - rewrite length_map, length_seq. now apply fold_vadd_length.
  - intros j Hj. rewrite (fold_vadd_length d) in Hj by assumption.
    rewrite (nth_fold_vadd d) by assumption.
    rewrite (nth_indep (map (sum_of_normalized (r :: rows)) (seq 0 d)) 0
               (sum_of_normalized (r :: rows) 0))
      by (now rewrite length_map, length_seq).
    rewrite (map_nth (sum_of_normalized (r :: rows))), seq_nth by exact Hj.
    unfold sum_of_normalized. simpl. now rewrite map_map.
Qed.

Lemma class_rows_rectangular (d : nat) (features_s : tensor2) (y_s : list Z)
    (c : Z) :
  rectangular d features_s -> rectangular d (class_rows features_s y_s c).
Proof.
  intros Hrect. unfold class_rows. revert y_s.
  induction Hrect as [|r rs Hr _ IH]; intros [|y ys]; simpl;
    try constructor.
  destruct (y =? c)%Z; simpl; [constructor; [exact Hr|]|]; apply IH.
Qed.

End Coordinates.

(** ** Distinct labels *)

Lemma count_two_le (l : list Z) (a b : Z) :
  a <> b ->
  (count_occ Z.eq_dec l a + count_occ Z.eq_dec l b <= length l)%nat.
Proof.
  intros Hab. induction l as [|x l IH]; simpl; [lia|].
  destruct (Z.eq_dec x a), (Z.eq_dec x b); subst; try congruence; lia.
Qed.

Lemma count_two_all (l : list Z) (a b : Z) :
  a <> b ->
  (count_occ Z.eq_dec l a + count_occ Z.eq_dec l b = length l)%nat ->
  Forall (fun x => x = a \/ x = b) l.
Proof.
  intros Hab. induction l as [|x l IH]; simpl; [constructor|].
  pose proof (count_two_le l a b Hab).
  destruct (Z.eq_dec x a), (Z.eq_dec x b); subst; try congruence; intros H';
    try (constructor; [auto|apply IH; lia]).
  lia.
Qed.

Lemma n_unique_two (l : list Z) (a b : Z) :
  a <> b ->
  (0 < count_occ Z.eq_dec l a)%nat -> (0 < count_occ Z.eq_dec l b)%nat ->
  Forall (fun x => x = a \/ x = b) l ->
  n_unique l = 2%nat.
Proof.
  intros Hab Ha Hb Hall. unfold n_unique.
  apply (count_occ_In Z.eq_dec) in Ha, Hb.
  assert (length (nodup Z.eq_dec l) <= 2)%nat as Hle.
  { apply (List.NoDup_incl_length (l' := [a; b])); [apply List.NoDup_nodup|].
    intros x Hx. apply nodup_In in Hx.
    rewrite List.Forall_forall in Hall. destruct (Hall x Hx); subst; simpl; auto. }
  assert (2 <= length (nodup Z.eq_dec l))%nat as Hge.
  { apply (List.NoDup_incl_length (l := [a; b])).
    - repeat constructor; simpl; intuition congruence.
    - intros x [<-|[<-|[]]]; now apply nodup_In. }
  lia.
Qed.

(** When the labels present are exactly [0 .. n-1], that many values are
    distinct and the loop finds a sample for every class it visits. *)
Lemma contiguous_labels (l : list Z) (n : nat) :
  (forall c, (c < n)%nat -> (0 < count_occ Z.eq_dec l (Z.of_nat c))%nat) ->
  Forall (fun y => (0 <= y < Z.of_nat n)%Z) l ->
  n_unique l = n /\ visited_classes l = seq 0 n.
Proof.
  intros Hall Hin.
  assert (n_unique l = n) as Hn.
  { unfold n_unique.
    assert (length (map Z.of_nat (seq 0 n)) = n) as Hlen
      by (now rewrite length_map, length_seq).
    etransitivity; [|exact Hlen].
    apply Nat.le_antisymm; apply List.NoDup_incl_length.
    - apply List.NoDup_nodup.
    - intros y Hy. apply nodup_In in Hy.
      rewrite List.Forall_forall in Hin. specialize (Hin y Hy).
      apply in_map_iff. exists (Z.to_nat y). split; [lia|].
      apply in_seq. lia.
    - apply Finite.Injective_map_NoDup; [|apply seq_NoDup].
      intros a b Hab. lia.
    - intros y Hy. apply in_map_iff in Hy as (c & <- & Hc).
      apply in_seq in Hc. apply nodup_In.
      apply (count_occ_In Z.eq_dec). apply Hall. lia. }
  split; [exact Hn|]. unfold visited_classes. rewrite Hn.
  apply forallb_filter_id. apply forallb_forall. intros c Hc.
  apply in_seq in Hc. specialize (Hall c). lia.
Qed.

(** ** The centroids of the epoch-begin pass *)

Section CentroidFacts.

Context {input : Type}.
Implicit Types (ds : Dataset input) (net : NeuralNet input).

Lemma visited_has_sample (y_s : list Z) (c : nat) :
  In c (visited_classes y_s) ->
  (0 < count_occ Z.eq_dec y_s (Z.of_nat c))%nat.
Proof.
  unfold visited_classes. intros H. apply filter_In in H as [_ H]. lia.
Qed.

(** When some visited class has a source sample the pass returns, and the
    clusterer it publishes holds one centroid per visited class. *)
Lemma on_epoch_begin_returns ds net :
  well_shaped_dataset ds ->
  length (predict_features net (source_inputs ds)) = length (source_inputs ds) ->
  visited_classes (source_labels ds) <> [] ->
  fst (on_epoch_begin ds net) = Returned tt /\
  target_kmeans (criterion__adapt_criterion (snd (on_epoch_begin ds net))) =
    Some {| n_clusters := n_unique (source_labels ds);
            random_state := 0;
            initial_centroids :=
              map (class_centroid (predict_features net (source_inputs ds))
                                  (source_labels ds))
                  (visited_classes (source_labels ds));
            fitted_on := predict_features net (target_inputs ds) |}.
Proof.
  intros Hds Hlen Hne. rewrite (on_epoch_begin_run ds net Hds Hlen).
  destruct (visited_classes (source_labels ds)) as [|c cs]; [congruence|].
  simpl. split; reflexivity.
Qed.

Lemma class_centroid_coordinates (d : nat) (features_s : tensor2)
    (y_s : list Z) (c : nat) :
  length features_s = length y_s -> rectangular d features_s ->
  (0 < count_occ Z.eq_dec y_s (Z.of_nat c))%nat ->
  class_centroid features_s y_s c =
  map (sum_of_normalized (class_rows features_s y_s (Z.of_nat c))) (seq 0 d).
Proof.
  intros Hlen Hrect Hc. unfold class_centroid.
  apply sum_dim0_normalize_coordinates.
  - intros E. apply (f_equal (@length _)) in E.
    rewrite class_rows_length in E by exact Hlen. simpl in E. lia.
  - now apply class_rows_rectangular.
Qed.

(** X18: when the source labels are exactly the class numbers [0 .. k-1]
    (so that a class [k] without source sample is the last one), the pass
    returns [k] centroids, one per class in class order, and builds the
    clusterer with [k] clusters. *)
Lemma on_epoch_begin_last_class_empty ds net (k : nat) :
  well_shaped_dataset ds ->
  length (predict_features net (source_inputs ds)) = length (source_inputs ds) ->
  (0 < k)%nat ->
  (forall c, (c < k)%nat ->
     (0 < count_occ Z.eq_dec (source_labels ds) (Z.of_nat c))%nat) ->
  Forall (fun y => (0 <= y < Z.of_nat k)%Z) (source_labels ds) ->
  fst (on_epoch_begin ds net) = Returned tt /\
  exists km,
    target_kmeans (criterion__adapt_criterion (snd (on_epoch_begin ds net))) =
      Some km /\
    n_clusters km = k /\
    initial_centroids km =
      map (class_centroid (predict_features net (source_inputs ds))
                          (source_labels ds)) (seq 0 k) /\
    length (initial_centroids km) = k.
Proof.
  intros Hds Hlen Hk Hall Hin.
  destruct (contiguous_labels (source_labels ds) k Hall Hin) as [Hn Hv].
  destruct (on_epoch_begin_returns ds net Hds Hlen) as [Hret Hkm].
  { rewrite Hv. destruct k; [lia|discriminate]. }
  split; [exact Hret|]. eexists. split; [exact Hkm|]. simpl.
  rewrite Hn, Hv, length_map, length_seq. auto.
Qed.

End CentroidFacts.

(** On the classes the loop visits: every centroid the epoch-begin pass
    computes for a class number below the number of distinct source labels
    is, coordinate by coordinate, the sum of the normalised feature vectors of
    the source samples of that class; with three source samples of class [0],
    two of class [1] and ten target samples the pass returns two centroids,
    those of class [0] and class [1], and builds the clusterer with
    [n_clusters = 2].  A class with a source sample and a number the loop does
    not reach has no centroid at all. *)
Theorem on_epoch_begin_centroid_sums {input : Type} (ds : Dataset input)
    (net : NeuralNet input) (d : nat) :
  let fs := predict_features net (source_inputs ds) in
  let ys := source_labels ds in
  let r := on_epoch_begin ds net in
  let sum_for (c : nat) :=
    map (sum_of_normalized (class_rows fs ys (Z.of_nat c))) (seq 0 d) in
  well_shaped_dataset ds ->
  length fs = length (source_inputs ds) ->
  rectangular d fs ->
  (visited_classes ys <> [] ->
   fst r = Returned tt /\
   exists km,
     target_kmeans (criterion__adapt_criterion (snd r)) = Some km /\
     initial_centroids km = map sum_for (visited_classes ys)) /\
  (count_occ Z.eq_dec ys 0%Z = 3%nat -> count_occ Z.eq_dec ys 1%Z = 2%nat ->
   length ys = 5%nat -> length (target_inputs ds) = 10%nat ->
   fst r = Returned tt /\
   exists km,
     target_kmeans (criterion__adapt_criterion (snd r)) = Some km /\
     n_clusters km = 2%nat /\
     initial_centroids km = [sum_for 0%nat; sum_for 1%nat] /\
     length (initial_centroids km) = 2%nat).
Proof.
  intros fs ys r sum_for Hds Hlen Hrect.
  assert (length fs = length ys) as Hshape
    by (unfold ys; now rewrite Hlen, source_shapes).
  assert (visited_classes ys <> [] ->
          fst r = Returned tt /\
          exists km,
            target_kmeans (criterion__adapt_criterion (snd r)) = Some km /\
            n_clusters km = n_unique ys /\
            initial_centroids km = map sum_for (visited_classes ys)) as Hgen.
  { intros Hne.
    destruct (on_epoch_begin_returns ds net Hds Hlen Hne) as [Hret Hkm].
    split; [exact Hret|]. eexists. split; [exact Hkm|]. split; [reflexivity|].
    simpl. apply map_ext_in. intros c Hc.
    apply class_centroid_coordinates; auto. now apply visited_has_sample. }
  split.
  - intros Hne. destruct (Hgen Hne) as (Hret & km & Hkm & _ & Hc). eauto.
  - intros H0 H1 H5 _.
    assert (n_unique ys = 2%nat) as Hn.
    { apply (n_unique_two ys 0%Z 1%Z); try lia.
      apply count_two_all; lia. }
    assert (visited_classes ys = [0; 1]%nat) as Hv.
    { unfold visited_classes. rewrite Hn. simpl.
      change (Z.of_nat 0) with 0%Z. change (Z.of_nat 1) with 1%Z.
      now rewrite H0, H1. }
    destruct Hgen as (Hret & km & Hkm & Hk & Hc); [rewrite Hv; discriminate|].
    split; [exact Hret|]. exists km. rewrite Hc, Hk, Hv, Hn. auto.
Qed.

Lemma on_epoch_begin_centroid_sums_witness :
  let r := on_epoch_begin two_class_dataset identity_net in
  fst r = Returned tt /\
  exists km,
    target_kmeans (criterion__adapt_criterion (snd r)) = Some km /\
    n_clusters km = 2%nat /\
    length (initial_centroids km) = 2%nat.
Proof.
  destruct (on_epoch_begin_centroid_sums two_class_dataset identity_net 2)
    as [_ H].
  - split; reflexivity.
  - reflexivity.
  - repeat constructor.
  - destruct H as (Hret & km & Hkm & Hk & _ & Hlen); try reflexivity.
    split; [exact Hret|]. exists km. auto.
Defined.

Lemma Forall2_map_self {A B : Type} (P : A -> B -> Prop) (f : A -> B)
    (l : list A) :
  (forall x, In x l -> P x (f x)) -> Forall2 P l (map f l).
Proof.
  induction l as [|x l IH]; intros H; simpl; constructor.
  - apply H. now left.
  - apply IH. intros y Hy. apply H. now right.
Qed.

(** C3 as stated fails: a class with two source samples of the
    same feature [1] gets the centroid [1 + 1], of L2 norm [2]. *)
Lemma twin_centroid_not_unit :
  let r := on_epoch_begin twin_dataset identity_net in
  fst r = Returned tt /\
  count_occ Z.eq_dec (source_labels twin_dataset) 0%Z = 2%nat /\
  exists km cent,
    target_kmeans (criterion__adapt_criterion (snd r)) = Some km /\
    In cent (initial_centroids km) /\
    norm2 cent = 2 /\ norm2 cent <> 1.
Proof.
  cbv zeta. split; [reflexivity|]. split; [reflexivity|].
  eexists. eexists. split; [reflexivity|]. split; [left; reflexivity|].
  assert (norm2 (class_centroid [[1]; [1]] [0%Z; 0%Z] 0) = 2) as H.
  { unfold class_centroid, class_rows, normalize, normalize_row. simpl.
    assert (norm2 [1] = 1) as ->.
    { unfold norm2, sum_sq. simpl. replace (1 * 1 + 0) with 1 by lra.
      apply sqrt_1. }
    rewrite Rmax_left by apply normalize_eps_le_1.
    unfold norm2, sum_sq. simpl.
    replace ((1 / 1 + 1 / 1) * (1 / 1 + 1 / 1) + 0) with (2 * 2) by field.
    apply sqrt_square. lra. }
  split; [exact H|]. change (norm2 (class_centroid [[1]; [1]] [0%Z; 0%Z] 0) <> 1).
  rewrite H. lra.
Qed.

(** C3, amended: every centroid the epoch-begin pass computes is the sum of
    the L2-normalised feature vectors of the source samples of its class, so
    its L2 norm is at most the number of these samples; it is [1] when the
    class has a single source sample whose feature vector has norm at least
    [1e-12]. *)
Theorem on_epoch_begin_centroid_norms {input : Type} (ds : Dataset input)
    (net : NeuralNet input) :
  let fs := predict_features net (source_inputs ds) in
  let ys := source_labels ds in
  let r := on_epoch_begin ds net in
  well_shaped_dataset ds ->
  length fs = length (source_inputs ds) ->
  visited_classes ys <> [] ->
  fst r = Returned tt /\
  exists km,
    target_kmeans (criterion__adapt_criterion (snd r)) = Some km /\
    Forall2 (fun c cent =>
        cent = sum_dim0 (normalize (class_rows fs ys (Z.of_nat c))) /\
        norm2 cent <= INR (count_occ Z.eq_dec ys (Z.of_nat c)) /\
        (forall v, class_rows fs ys (Z.of_nat c) = [v] ->
                   normalize_eps <= norm2 v -> norm2 cent = 1))
      (visited_classes ys) (initial_centroids km).
Proof.
  intros fs ys r Hds Hlen Hne.
  destruct (on_epoch_begin_returns ds net Hds Hlen Hne) as [Hret Hkm].
  split; [exact Hret|]. eexists. split; [exact Hkm|]. simpl.
  apply Forall2_map_self. intros c _. split; [reflexivity|].
  unfold class_centroid. fold fs. fold ys. split.
  - rewrite <- (class_rows_length fs ys (Z.of_nat c))
      by (unfold ys; now rewrite Hlen, source_shapes).
    apply norm2_sum_normalized.
  - intros v -> Hv. simpl. now apply norm2_normalize_row_unit.
Qed.

Lemma on_epoch_begin_centroid_norms_witness :
  let fs := predict_features identity_net (source_inputs two_class_dataset) in
  let ys := source_labels two_class_dataset in
  let r := on_epoch_begin two_class_dataset identity_net in
  fst r = Returned tt /\
  exists km,
    target_kmeans (criterion__adapt_criterion (snd r)) = Some km /\
    Forall2 (fun c cent =>
        cent = sum_dim0 (normalize (class_rows fs ys (Z.of_nat c))) /\
        norm2 cent <= INR (count_occ Z.eq_dec ys (Z.of_nat c)) /\
        (forall v, class_rows fs ys (Z.of_nat c) = [v] ->
                   normalize_eps <= norm2 v -> norm2 cent = 1))
      [0; 1]%nat (initial_centroids km).
Proof.
  apply (on_epoch_begin_centroid_norms two_class_dataset identity_net).
  - split; reflexivity.
  - reflexivity.
  - discriminate.
Defined.

(** ** Source and target samples are kept apart *)

Section Domains.

Context {input : Type}.
Implicit Types (X : Xdict input) (ds : Dataset input) (net : NeuralNet input).

Lemma sign_test_complement (t : list Z) :
  ge_scalar t 0 = map negb (lt_scalar t 0).
Proof.
  unfold ge_scalar, lt_scalar. rewrite map_map. apply map_ext.
  intros d. destruct (Z.leb_spec 0 d), (Z.ltb_spec d 0); simpl; lia.
Qed.

Lemma target_sample_named X (i : Z) :
  In i (target_sample_idx X) ->
  exists s, In s (batch_samples X) /\ (snd (fst s) < 0)%Z /\ snd s = i.
Proof.
  unfold target_sample_idx, target_samples. intros H.
  apply in_map_iff in H as (s & <- & Hs). apply filter_In in Hs as [Hs Ht].
  exists s. unfold is_target in Ht. repeat split; [exact Hs|lia].
Qed.

(** The outcome and the centroids of the epoch-begin pass do not depend on
    the target inputs. *)
Lemma epoch_step_centroids (X_s : list input) (y_s : list Z)
    (X_t X_t' : list input) net :
  fst (epoch_step X_s y_s X_t net) = fst (epoch_step X_s y_s X_t' net) /\
  option_map (fun km => (n_clusters km, initial_centroids km))
    (target_kmeans (criterion__adapt_criterion (snd (epoch_step X_s y_s X_t net)))) =
  option_map (fun km => (n_clusters km, initial_centroids km))
    (target_kmeans (criterion__adapt_criterion (snd (epoch_step X_s y_s X_t' net)))).
Proof.
  unfold epoch_step.
  destruct (centroid_loop _ _ _ _) as [[|c cs]|e]; simpl; split; reflexivity.
Qed.

Lemma epoch_step_fitted (X_s : list input) (y_s : list Z) (X_t : list input)
    net km :
  fst (epoch_step X_s y_s X_t net) = Returned tt ->
  target_kmeans (criterion__adapt_criterion (snd (epoch_step X_s y_s X_t net)))
    = Some km ->
  fitted_on km = predict_features net X_t.
Proof.
  unfold epoch_step.
  destruct (centroid_loop _ _ _ _) as [[|c cs]|e]; simpl; try discriminate.
  intros _ [= <-]. reflexivity.
Qed.

End Domains.

(** C7: the batch-end update depends on the batch through its target samples
    only and changes no memory row but one named by the sample index of a
    sample with a negative domain indicator; the centroids and the cluster
    count of the epoch-begin pass depend on the training set through its
    samples with a non-negative domain indicator only, and the clusterer is
    fitted on the features of the samples with a negative one; the two masks
    are complementary, and both callbacks keep the same target rows of a
    dict. *)
Theorem domains_kept_apart {input : Type} (self : ComputeMemoryBank)
    (X1 X2 : Xdict input) (y1 y2 : list Z) (net : NeuralNet input)
    (ds1 ds2 : Dataset input) :
  well_shaped X1 -> well_shaped X2 ->
  target_samples X1 = target_samples X2 ->
  well_shaped_dataset ds1 -> well_shaped_dataset ds2 ->
  source_of ds1 = source_of ds2 ->
  let c := criterion__adapt_criterion net in
  let b1 := on_batch_end self (X1, y1) net in
  let e1 := on_epoch_begin ds1 net in
  let e2 := on_epoch_begin ds2 net in
  b1 = on_batch_end self (X2, y2) net /\
  (forall j,
     memory_features (criterion__adapt_criterion (snd b1)) !! j <>
       memory_features c !! j ->
     exists s, In s (batch_samples X1) /\ (snd (fst s) < 0)%Z /\
               row_of (length (memory_features c)) (snd s) = Some j) /\
  (forall j,
     memory_outputs (criterion__adapt_criterion (snd b1)) !! j <>
       memory_outputs c !! j ->
     exists s, In s (batch_samples X1) /\ (snd (fst s) < 0)%Z /\
               row_of (length (memory_outputs c)) (snd s) = Some j) /\
  fst e1 = fst e2 /\
  option_map (fun km => (n_clusters km, initial_centroids km))
    (target_kmeans (criterion__adapt_criterion (snd e1))) =
  option_map (fun km => (n_clusters km, initial_centroids km))
    (target_kmeans (criterion__adapt_criterion (snd e2))) /\
  (forall km, fst e1 = Returned tt ->
     target_kmeans (criterion__adapt_criterion (snd e1)) = Some km ->
     fitted_on km = predict_features net (target_inputs ds1)) /\
  (forall t, ge_scalar t 0 = map negb (lt_scalar t 0)) /\
  (well_shaped (dataset_X ds1) ->
   target_inputs ds1 =
   map (fun s => fst (fst s)) (target_samples (dataset_X ds1))).
Proof.
  intros HX1 HX2 Ht Hd1 Hd2 Hs. cbv zeta.
  rewrite (on_batch_end_run self X1 y1 net HX1).
  rewrite (on_batch_end_run self X2 y2 net HX2).
  rewrite (on_epoch_begin_split ds1 net Hd1), (on_epoch_begin_split ds2 net Hd2).
  unfold source_inputs, source_labels. rewrite <- Hs.
  unfold target_sample_idx. rewrite <- Ht. cbn [fst snd criterion__adapt_criterion].
  split; [reflexivity|].
  split.
  { intros j Hj.
    destruct (named_dec (length (memory_features (criterion__adapt_criterion net)))
                (map snd (target_samples X1)) j) as [(i & Hi & Hrow)|Hno].
    - destruct (target_sample_named X1 i Hi) as (s & Hin & Hneg & <-). eauto.
    - exfalso. apply Hj. now apply memory_step_frame. }
  split.
  { intros j Hj.
    destruct (named_dec (length (memory_outputs (criterion__adapt_criterion net)))
                (map snd (target_samples X1)) j) as [(i & Hi & Hrow)|Hno].
    - destruct (target_sample_named X1 i Hi) as (s & Hin & Hneg & <-). eauto.
    - exfalso. apply Hj. now apply memory_step_frame_outputs. }
  split; [apply epoch_step_centroids|].
  split; [apply epoch_step_centroids|].
  split; [intros km; apply epoch_step_fitted|].
  split; [apply sign_test_complement|].
  intros HX.
  pose proof (target_inputs_selected (dataset_X ds1) HX) as E1.
  rewrite (dataset_targets_selected ds1 Hd1) in E1. now injection E1.
Qed.

Lemma domains_kept_apart_witness :
  on_batch_end {| momentum := 7 / 10 |} mixed_batch three_row_net =
  on_batch_end {| momentum := 7 / 10 |} mixed_batch_other_sources three_row_net /\
  fst (on_epoch_begin unit_dataset three_row_net) =
  fst (on_epoch_begin unit_dataset_other_targets three_row_net).
Proof.
  destruct (domains_kept_apart {| momentum := 7 / 10 |}
              (fst mixed_batch) (fst mixed_batch_other_sources)
              (snd mixed_batch) (snd mixed_batch_other_sources)
              three_row_net
              unit_dataset unit_dataset_other_targets)
    as (Hb & _ & _ & He & _).
  - split; reflexivity.
  - split; reflexivity.
  - reflexivity.
  - split; reflexivity.
  - split; reflexivity.
  - reflexivity.
  - split; [exact Hb|exact He].
Defined.

(** ** The batch-end update in closed form *)

Section ClosedForm.

Context {A : Type}.
Implicit Types (t : list A) (idx : list Z).

Lemma names_row_spec (n : nat) idx (j : nat) :
  names_row n idx j = true <-> exists i, In i idx /\ row_of n i = Some j.
Proof.
  unfold names_row. rewrite existsb_exists. split.
  - intros (i & Hi & H). exists i. split; [exact Hi|].
    destruct (row_of n i) as [j'|]; [|discriminate].
    apply Nat.eqb_eq in H. now subst.
  - intros (i & Hi & H). exists i. split; [exact Hi|].
    rewrite H. apply Nat.eqb_refl.
Qed.

Lemma index_select_returned t idx rows :
  index_select t idx = Returned rows -> in_range t idx.
Proof.
  revert rows. induction idx as [|i idx IH]; intros rows; simpl.
  - constructor.
  - destruct (row_of (length t) i) as [j|] eqn:E; [|discriminate].
    destruct (t !! j) as [r|]; [|discriminate].
    destruct (index_select t idx) as [rs|e]; simpl; [|discriminate].
    intros _. constructor; [congruence|]. now apply (IH rs).
Qed.

Lemma index_select_raised t idx e :
  index_select t idx = Raised e -> e = IndexError.
Proof.
  induction idx as [|i idx IH]; simpl; [discriminate|].
  destruct (row_of (length t) i) as [j|]; [|now intros [= <-]].
  destruct (t !! j) as [r|]; [|now intros [= <-]].
  destruct (index_select t idx) as [rs|e']; simpl; [discriminate|].
  intros [= <-]. now apply IH.
Qed.

Lemma in_range_dec t idx : in_range t idx \/ ~ in_range t idx.
Proof.
  destruct (index_select t idx) as [rows|e] eqn:E.
  - left. now apply (index_select_returned t idx rows).
  - right. intros H. apply index_select_in_range in H as [rows H]. congruence.
Qed.

(** Gathering through [idx] and writing the images back leaves the image
    in every named row and the old value in every other row. *)
Lemma gather_put_closed t idx rows (f : A -> A) t' :
  index_select t idx = Returned rows ->
  index_put t idx (map f rows) = Returned t' ->
  t' = imap (fun j r => if names_row (length t) idx j then f r else r) t.
Proof.
  intros Hsel Hput. apply list_eq. intros j. rewrite list_lookup_imap.
  destruct (names_row (length t) idx j) eqn:E.
  - apply names_row_spec in E as (i & Hi & Hj).
    apply (index_put_written t idx rows f Hsel t t' i j eq_refl Hput Hi Hj).
  - rewrite (index_put_frame t idx (map f rows) t' j Hput).
    + now destruct (t !! j).
    + intros i Hi Hj.
      assert (names_row (length t) idx j = true) as E'
        by (apply names_row_spec; eauto).
      congruence.
Qed.

End ClosedForm.

Lemma memory_step_closed (m : R) (idx : list Z) (c : AdaptCriterion) :
  in_range (memory_features c) idx -> in_range (memory_outputs c) idx ->
  memory_step m idx c =
  (Returned tt,
   {| memory_features := rescale_named (1 - m) idx (memory_features c);
      memory_outputs := rescale_named (1 - m) idx (memory_outputs c);
      target_kmeans := target_kmeans c |}).
Proof.
  intros Hf Ho. unfold memory_step, scale.
  destruct (index_select_in_range _ _ Hf) as [old_f Ef].
  destruct (index_select_in_range _ _ Ho) as [old_o Eo].
  rewrite Ef, Eo.
  destruct (index_put_returns _ _ _ (map (Rmult (1 - m))) Ef
              (memory_features c) eq_refl) as (mf' & Pf & _).
  destruct (index_put_returns _ _ _ (map (Rmult (1 - m))) Eo
              (memory_outputs c) eq_refl) as (mo' & Po & _).
  rewrite Pf, Po.
  rewrite (gather_put_closed _ _ _ _ _ Ef Pf), (gather_put_closed _ _ _ _ _ Eo Po).
  reflexivity.
Qed.

Lemma memory_step_raises (m : R) (idx : list Z) (c : AdaptCriterion) :
  ~ (in_range (memory_features c) idx /\ in_range (memory_outputs c) idx) ->
  memory_step m idx c = (Raised IndexError, c).
Proof.
  intros Hno. unfold memory_step.
  destruct (index_select (memory_features c) idx) as [old_f|e] eqn:Ef.
  - destruct (index_select (memory_outputs c) idx) as [old_o|e] eqn:Eo.
    + exfalso. apply Hno. split; eapply index_select_returned; eauto.
    + now rewrite (index_select_raised _ _ _ Eo).
  - now rewrite (index_select_raised _ _ _ Ef).
Qed.

Lemma rescale_named_length (a : R) (idx : list Z) (t : tensor2) :
  length (rescale_named a idx t) = length t.
Proof. unfold rescale_named. apply length_imap. Qed.

Lemma rescale_named_rectangular (a : R) (idx : list Z) (t : tensor2) (d : nat) :
  rectangular d t -> rectangular d (rescale_named a idx t).
Proof.
  unfold rectangular, rescale_named. rewrite !Forall_lookup.
  intros H j r Hr. rewrite list_lookup_imap in Hr.
  apply fmap_Some in Hr as (r0 & E & ->). specialize (H j r0 E).
  destruct (names_row _ _ _); [now rewrite length_map|exact H].
Qed.

(** X1: when a target sample index of the batch is out of range for
    [memory_features] or for [memory_outputs], the batch-end update raises
    [IndexError] after the module went to evaluation mode and before anything
    is written: both memories and the clusterer are as before. *)
Theorem on_batch_end_out_of_range {input : Type} (self : ComputeMemoryBank)
    (X : Xdict input) (y : list Z) (net : NeuralNet input) :
  well_shaped X ->
  ~ (in_range (memory_features (criterion__adapt_criterion net))
              (target_sample_idx X) /\
     in_range (memory_outputs (criterion__adapt_criterion net))
              (target_sample_idx X)) ->
  on_batch_end self (X, y) net = (Raised IndexError, in_eval_mode net).
Proof.
  intros HX Hno. rewrite (on_batch_end_run self X y net HX).
  now rewrite (memory_step_raises _ _ _ Hno).
Qed.

Lemma on_batch_end_out_of_range_witness :
  on_batch_end {| momentum := 7 / 10 |} out_of_range_batch three_row_net =
  (Raised IndexError, in_eval_mode three_row_net).
Proof.
  apply (on_batch_end_out_of_range {| momentum := 7 / 10 |}
           (fst out_of_range_batch) (snd out_of_range_batch) three_row_net).
  - split; reflexivity.
  - intros [H _]. inversion H as [|? ? _ H']. inversion H' as [|? ? H7 _].
    apply H7. reflexivity.
Defined.

(** X2: a batch whose inputs, domain indicators and sample indices do not
    have the same number of rows makes the batch-end update raise
    [IndexError] on the first lines, before the module is touched: the
    network, its mode included, is as before. *)
Theorem on_batch_end_ill_shaped {input : Type} (self : ComputeMemoryBank)
    (X : Xdict input) (y : list Z) (net : NeuralNet input) :
  ~ well_shaped X ->
  on_batch_end self (X, y) net = (Raised IndexError, net).
Proof.
  intros Hno. unfold on_batch_end, bind, lift, mask_select, lt_scalar. simpl.
  rewrite !length_map.
  destruct (Nat.eqb_spec (length (X_ X)) (length (sample_domain X)));
    [|reflexivity].
  destruct (Nat.eqb_spec (length (sample_idx X)) (length (sample_domain X)));
    [|reflexivity].
  exfalso. apply Hno. now split.
Qed.

Lemma on_batch_end_ill_shaped_witness :
  on_batch_end {| momentum := 7 / 10 |} ill_shaped_batch three_row_net =
  (Raised IndexError, three_row_net).
Proof.
  apply (on_batch_end_ill_shaped {| momentum := 7 / 10 |}
           (fst ill_shaped_batch) (snd ill_shaped_batch) three_row_net).
  intros [H _]. discriminate H.
Defined.

(** X3: whatever the batch and whatever the outcome, the batch-end update
    keeps the number of rows of both memories and the width of their rows,
    and leaves the clusterer, the module and the feature extractor alone. *)
Theorem on_batch_end_keeps_shape {input : Type} (self : ComputeMemoryBank)
    (X : Xdict input) (y : list Z) (net : NeuralNet input) :
  let c := criterion__adapt_criterion net in
  let net' := snd (on_batch_end self (X, y) net) in
  let c' := criterion__adapt_criterion net' in
  length (memory_features c') = length (memory_features c) /\
  length (memory_outputs c') = length (memory_outputs c) /\
  (forall d, rectangular d (memory_features c) -> rectangular d (memory_features c')) /\
  (forall d, rectangular d (memory_outputs c) -> rectangular d (memory_outputs c')) /\
  target_kmeans c' = target_kmeans c /\
  module_forward net' = module_forward net /\
  predict_features net' = predict_features net.
Proof.
  cbv zeta. destruct (well_shaped_dec X) as [HX|HX].
  - rewrite (on_batch_end_run self X y net HX). cbn [fst snd].
    cbn [criterion__adapt_criterion module_forward predict_features].
    destruct (in_range_dec (memory_features (criterion__adapt_criterion net))
                (target_sample_idx X)) as [Hf|Hf];
      [destruct (in_range_dec (memory_outputs (criterion__adapt_criterion net))
                   (target_sample_idx X)) as [Ho|Ho]|].
    + rewrite (memory_step_closed _ _ _ Hf Ho). simpl.
      rewrite !rescale_named_length.
      repeat split; auto using rescale_named_rectangular.
    + rewrite memory_step_raises by tauto. simpl. repeat split; auto.
    + rewrite memory_step_raises by tauto. simpl. repeat split; auto.
  - rewrite (ill_shaped_raises self X y net HX).
    repeat split; auto.
Qed.

(** ** How batch-end updates compose *)

Section Composition.

Implicit Types (t : tensor2) (idx : list Z).

Lemma map_Rmult_1 (r : vec) : map (Rmult 1) r = r.
Proof.
  induction r as [|x r IH]; simpl; [reflexivity|].
  now rewrite IH, Rmult_1_l.
Qed.

Lemma map_Rmult_Rmult (a b : R) (r : vec) :
  map (Rmult a) (map (Rmult b) r) = map (Rmult (a * b)) r.
Proof.
  rewrite map_map. apply map_ext. intros x. ring.
Qed.

Lemma map_Rmult_0 (r : vec) : map (Rmult 0) r = repeat 0 (length r).
Proof.
  induction r as [|x r IH]; simpl; [reflexivity|].
  now rewrite IH, Rmult_0_l.
Qed.

Lemma rescale_named_lookup (a : R) idx t (j : nat) :
  rescale_named a idx t !! j =
  (fun r => if names_row (length t) idx j then map (Rmult a) r else r) <$> t !! j.
Proof. unfold rescale_named. apply list_lookup_imap. Qed.

Lemma rescale_named_1 idx t : rescale_named 1 idx t = t.
Proof.
  apply list_eq. intros j. rewrite rescale_named_lookup.
  destruct (_ !! j) as [r|]; simpl; [|reflexivity].
  destruct (names_row _ _ _); [now rewrite map_Rmult_1|reflexivity].
Qed.

Lemma rescale_named_compose (a b : R) idx t :
  rescale_named a idx (rescale_named b idx t) = rescale_named (a * b) idx t.
Proof.
  apply list_eq. intros j. rewrite !rescale_named_lookup, rescale_named_length.
  destruct (_ !! j) as [r|]; simpl; [|reflexivity].
  destruct (names_row _ _ _); [now rewrite map_Rmult_Rmult|reflexivity].
Qed.

Lemma rescale_named_commute (a : R) idx idx' t :
  rescale_named a idx (rescale_named a idx' t) =
  rescale_named a idx' (rescale_named a idx t).
Proof.
  apply list_eq. intros j. rewrite !rescale_named_lookup, !rescale_named_length.
  destruct (_ !! j) as [r|]; simpl; [|reflexivity].
  destruct (names_row (length t) idx j), (names_row (length t) idx' j);
    reflexivity.
Qed.

Lemma names_row_same_set (n : nat) idx idx' (j : nat) :
  (forall i, In i idx <-> In i idx') ->
  names_row n idx j = names_row n idx' j.
Proof.
  intros Hset. apply eq_true_iff_eq. rewrite !names_row_spec.
  split; intros (i & Hi & Hj); exists i; split; auto; now apply Hset.
Qed.

Lemma rescale_named_same_set (a : R) idx idx' t :
  (forall i, In i idx <-> In i idx') ->
  rescale_named a idx t = rescale_named a idx' t.
Proof.
  intros Hset. unfold rescale_named. apply imap_ext. intros j r _.
  now rewrite (names_row_same_set _ _ _ j Hset).
Qed.

Lemma in_range_same_set {A : Type} (t : list A) idx idx' :
  (forall i, In i idx <-> In i idx') -> in_range t idx -> in_range t idx'.
Proof.
  unfold in_range. rewrite !List.Forall_forall. intros Hset H i Hi.
  apply H. now apply Hset.
Qed.

Lemma in_range_rescaled (a : R) idx idx' t :
  in_range t idx' -> in_range (rescale_named a idx t) idx'.
Proof. unfold in_range. now rewrite rescale_named_length. Qed.

End Composition.

Lemma on_batch_end_closed {input : Type} (self : ComputeMemoryBank)
    (X : Xdict input) (y : list Z) (net : NeuralNet input) :
  well_shaped X ->
  in_range (memory_features (criterion__adapt_criterion net)) (target_sample_idx X) ->
  in_range (memory_outputs (criterion__adapt_criterion net)) (target_sample_idx X) ->
  on_batch_end self (X, y) net =
  (Returned tt,
   {| module_training := false;
      module_forward := module_forward net;
      predict_features := predict_features net;
      criterion__adapt_criterion :=
        {| memory_features :=
             rescale_named (1 - momentum self) (target_sample_idx X)
               (memory_features (criterion__adapt_criterion net));
           memory_outputs :=
             rescale_named (1 - momentum self) (target_sample_idx X)
               (memory_outputs (criterion__adapt_criterion net));
           target_kmeans := target_kmeans (criterion__adapt_criterion net) |} |}).
Proof.
  intros HX Hf Ho. rewrite (on_batch_end_run self X y net HX).
  now rewrite (memory_step_closed _ _ _ Hf Ho).
Qed.

(** X4: [k] batch-end updates on the same batch multiply every memory row
    that a target sample index of the batch names by [(1 - momentum) ^ k] and
    leave the other rows as they were. *)
Theorem repeat_batch_end_decays {input : Type} (self : ComputeMemoryBank)
    (X : Xdict input) (y : list Z) (net : NeuralNet input) (k : nat) :
  well_shaped X ->
  in_range (memory_features (criterion__adapt_criterion net)) (target_sample_idx X) ->
  in_range (memory_outputs (criterion__adapt_criterion net)) (target_sample_idx X) ->
  let c := criterion__adapt_criterion net in
  let c' := criterion__adapt_criterion (repeat_batch_end self (X, y) k net) in
  memory_features c' =
    rescale_named ((1 - momentum self) ^ k) (target_sample_idx X) (memory_features c) /\
  memory_outputs c' =
    rescale_named ((1 - momentum self) ^ k) (target_sample_idx X) (memory_outputs c).
Proof.
  intros HX. cbv zeta. revert net. induction k as [|k IH]; intros net Hf Ho.
  - simpl. now rewrite !rescale_named_1.
  - cbn [repeat_batch_end]. rewrite (on_batch_end_closed self X y net HX Hf Ho).
    cbn [snd].
    destruct (IH {| module_training := false;
                    module_forward := module_forward net;
                    predict_features := predict_features net;
                    criterion__adapt_criterion :=
                      {| memory_features :=
                           rescale_named (1 - momentum self) (target_sample_idx X)
                             (memory_features (criterion__adapt_criterion net));
                         memory_outputs :=
                           rescale_named (1 - momentum self) (target_sample_idx X)
                             (memory_outputs (criterion__adapt_criterion net));
                         target_kmeans :=
                           target_kmeans (criterion__adapt_criterion net) |} |})
      as [IHf IHo]; [now apply in_range_rescaled..|].
    cbn [criterion__adapt_criterion memory_features memory_outputs] in IHf, IHo.
    rewrite IHf, IHo, !rescale_named_compose.
    replace ((1 - momentum self) ^ k * (1 - momentum self))
      with ((1 - momentum self) ^ S k) by (simpl; ring).
    split; reflexivity.
Qed.

Lemma repeat_batch_end_decays_witness :
  memory_features (criterion__adapt_criterion
    (repeat_batch_end {| momentum := 7 / 10 |} mixed_batch 3 three_row_net)) =
  rescale_named ((1 - 7 / 10) ^ 3) [0%Z; 2%Z] [[1]; [2]; [3]].
Proof.
  apply (repeat_batch_end_decays {| momentum := 7 / 10 |} (fst mixed_batch)
           (snd mixed_batch) three_row_net 3).
  - split; reflexivity.
  - repeat constructor; vm_compute; discriminate.
  - repeat constructor; vm_compute; discriminate.
Defined.

(** X5: two batch-end updates on two batches give the same network in
    either order. *)
Theorem on_batch_end_commutes {input : Type} (self : ComputeMemoryBank)
    (X1 X2 : Xdict input) (y1 y2 : list Z) (net : NeuralNet input) :
  well_shaped X1 -> well_shaped X2 ->
  let c := criterion__adapt_criterion net in
  in_range (memory_features c) (target_sample_idx X1) ->
  in_range (memory_outputs c) (target_sample_idx X1) ->
  in_range (memory_features c) (target_sample_idx X2) ->
  in_range (memory_outputs c) (target_sample_idx X2) ->
  on_batch_end self (X2, y2) (snd (on_batch_end self (X1, y1) net)) =
  on_batch_end self (X1, y1) (snd (on_batch_end self (X2, y2) net)) /\
  fst (on_batch_end self (X2, y2) (snd (on_batch_end self (X1, y1) net))) =
    Returned tt.
Proof.
  intros H1 H2 c Hf1 Ho1 Hf2 Ho2.
  rewrite (on_batch_end_closed self X1 y1 net H1 Hf1 Ho1).
  rewrite (on_batch_end_closed self X2 y2 net H2 Hf2 Ho2).
  cbn [snd].
  rewrite (on_batch_end_closed self X2 y2) by
    (try exact H2; cbn [criterion__adapt_criterion memory_features memory_outputs];
     now apply in_range_rescaled).
  rewrite (on_batch_end_closed self X1 y1) by
    (try exact H1; cbn [criterion__adapt_criterion memory_features memory_outputs];
     now apply in_range_rescaled).
  cbn [criterion__adapt_criterion memory_features memory_outputs target_kmeans
       module_forward predict_features fst].
  split; [|reflexivity].
  now rewrite (rescale_named_commute _ (target_sample_idx X2) (target_sample_idx X1)
                 (memory_features c)),
              (rescale_named_commute _ (target_sample_idx X2) (target_sample_idx X1)
                 (memory_outputs c)).
Qed.

Lemma on_batch_end_commutes_witness :
  on_batch_end {| momentum := 7 / 10 |} middle_batch
    (snd (on_batch_end {| momentum := 7 / 10 |} mixed_batch three_row_net)) =
  on_batch_end {| momentum := 7 / 10 |} mixed_batch
    (snd (on_batch_end {| momentum := 7 / 10 |} middle_batch three_row_net)).
Proof.
  apply (on_batch_end_commutes {| momentum := 7 / 10 |}
           (fst mixed_batch) (fst middle_batch)
           (snd mixed_batch) (snd middle_batch) three_row_net).
  - split; reflexivity.
  - split; reflexivity.
  - repeat constructor; vm_compute; discriminate.
  - repeat constructor; vm_compute; discriminate.
  - repeat constructor; vm_compute; discriminate.
  - repeat constructor; vm_compute; discriminate.
Defined.

(** X6: the batch-end update depends on the target sample indices of the
    batch as a set: two batches that hold the same indices, in any order and
    however often, end in the same outcome and the same memories. *)
Theorem on_batch_end_same_index_set {input : Type} (self : ComputeMemoryBank)
    (X1 X2 : Xdict input) (y1 y2 : list Z) (net : NeuralNet input) :
  well_shaped X1 -> well_shaped X2 ->
  (forall i, In i (target_sample_idx X1) <-> In i (target_sample_idx X2)) ->
  on_batch_end self (X1, y1) net = on_batch_end self (X2, y2) net.
Proof.
  intros H1 H2 Hset.
  assert (forall i, In i (target_sample_idx X2) <-> In i (target_sample_idx X1))
    as Hset' by (intros i; symmetry; apply Hset).
  rewrite (on_batch_end_run self X1 y1 net H1).
  rewrite (on_batch_end_run self X2 y2 net H2). cbv zeta.
  set (c := criterion__adapt_criterion net).
  assert (memory_step (momentum self) (target_sample_idx X1) c =
          memory_step (momentum self) (target_sample_idx X2) c) as ->;
    [|reflexivity].
  destruct (in_range_dec (memory_features c) (target_sample_idx X1)) as [Hf|Hf];
    [destruct (in_range_dec (memory_outputs c) (target_sample_idx X1)) as [Ho|Ho]|].
  - rewrite (memory_step_closed _ _ _ Hf Ho).
    rewrite (memory_step_closed _ (target_sample_idx X2) c)
      by (eapply in_range_same_set; eauto).
    now rewrite (rescale_named_same_set _ _ _ (memory_features c) Hset),
                (rescale_named_same_set _ _ _ (memory_outputs c) Hset).
  - rewrite !memory_step_raises; [reflexivity| |tauto].
    intros [_ Ho']. apply Ho. eapply in_range_same_set; eauto.
  - rewrite !memory_step_raises; [reflexivity| |tauto].
    intros [Hf' _]. apply Hf. eapply in_range_same_set; eauto.
Qed.

Lemma on_batch_end_same_index_set_witness :
  on_batch_end {| momentum := 7 / 10 |} mixed_batch three_row_net =
  on_batch_end {| momentum := 7 / 10 |} shuffled_batch three_row_net.
Proof.
  apply (on_batch_end_same_index_set {| momentum := 7 / 10 |}
           (fst mixed_batch) (fst shuffled_batch)
           (snd mixed_batch) (snd shuffled_batch) three_row_net).
  - split; reflexivity.
  - split; reflexivity.
  - intros i. simpl. tauto.
Defined.

(** ** What the update does to the size of a row *)

Lemma sum_sq_Rmult (a : R) (r : vec) :
  sum_sq (map (Rmult a) r) = (a * a) * sum_sq r.
Proof.
  induction r as [|x r IH]; simpl; [ring|].
  change (fold_right (fun x acc => x * x + acc) 0 (map (Rmult a) r))
    with (sum_sq (map (Rmult a) r)).
  change (fold_right (fun x acc => x * x + acc) 0 r) with (sum_sq r).
  rewrite IH. ring.
Qed.

Lemma norm2_Rmult (a : R) (r : vec) :
  norm2 (map (Rmult a) r) = Rabs a * norm2 r.
Proof.
  unfold norm2. rewrite sum_sq_Rmult.
  rewrite sqrt_mult_alt by apply Rle_0_sqr.
  f_equal. apply sqrt_Rsqr_abs.
Qed.

Lemma vsum_Rmult (a : R) (r : vec) : vsum (map (Rmult a) r) = a * vsum r.
Proof.
  induction r as [|x r IH]; simpl; [ring|].
  change (fold_right Rplus 0 (map (Rmult a) r)) with (vsum (map (Rmult a) r)).
  change (fold_right Rplus 0 r) with (vsum r).
  rewrite IH. ring.
Qed.

Lemma rescale_named_row (a : R) (idx : list Z) (t : tensor2) (i : Z)
    (j : nat) (r : vec) :
  In i idx -> row_of (length t) i = Some j -> t !! j = Some r ->
  rescale_named a idx t !! j = Some (map (Rmult a) r).
Proof.
  intros Hi Hj Hr. rewrite rescale_named_lookup.
  apply fmap_Some. exists r. split; [exact Hr|].
  assert (names_row (length t) idx j = true) as ->
    by (apply names_row_spec; eauto).
  reflexivity.
Qed.

(** X7: a returning batch-end update multiplies the L2 norm of every named
    row of [memory_features] by [|1 - momentum|] and the sum of every named
    row of [memory_outputs] by [1 - momentum]: a row of unit norm, or of sum
    one, keeps that only for momentum [0] (or [2] for the norm). *)
Theorem on_batch_end_shrinks_rows {input : Type} (self : ComputeMemoryBank)
    (X : Xdict input) (y : list Z) (net : NeuralNet input) (i : Z) (j : nat)
    (r : vec) :
  well_shaped X ->
  let c := criterion__adapt_criterion net in
  let c' := criterion__adapt_criterion (snd (on_batch_end self (X, y) net)) in
  in_range (memory_features c) (target_sample_idx X) ->
  in_range (memory_outputs c) (target_sample_idx X) ->
  In i (target_sample_idx X) ->
  (row_of (length (memory_features c)) i = Some j ->
   memory_features c !! j = Some r ->
   exists r', memory_features c' !! j = Some r' /\
              norm2 r' = Rabs (1 - momentum self) * norm2 r) /\
  (row_of (length (memory_outputs c)) i = Some j ->
   memory_outputs c !! j = Some r ->
   exists r', memory_outputs c' !! j = Some r' /\
              vsum r' = (1 - momentum self) * vsum r).
Proof.
  intros HX c c' Hf Ho Hi. unfold c'.
  rewrite (on_batch_end_closed self X y net HX Hf Ho).
  cbn [snd criterion__adapt_criterion memory_features memory_outputs].
  split; intros Hj Hr; eexists; split;
    try (eapply rescale_named_row; eauto).
  - apply norm2_Rmult.
  - apply vsum_Rmult.
Qed.

Lemma on_batch_end_shrinks_rows_witness :
  exists r',
    memory_features (criterion__adapt_criterion
      (snd (on_batch_end {| momentum := 7 / 10 |} mixed_batch three_row_net)))
      !! 2%nat = Some r' /\
    norm2 r' = Rabs (1 - 7 / 10) * norm2 [3].
Proof.
  apply (on_batch_end_shrinks_rows {| momentum := 7 / 10 |} (fst mixed_batch)
           (snd mixed_batch) three_row_net 2%Z 2%nat [3]).
  - split; reflexivity.
  - repeat constructor; vm_compute; discriminate.
  - repeat constructor; vm_compute; discriminate.
  - simpl. auto.
  - reflexivity.
  - reflexivity.
Defined.

(** X8: with momentum [0] a returning batch-end update leaves both memories
    as they were; with momentum [1] it overwrites every named row with
    zeros. *)
Theorem on_batch_end_extreme_momentum {input : Type} (self : ComputeMemoryBank)
    (X : Xdict input) (y : list Z) (net : NeuralNet input) :
  well_shaped X ->
  let c := criterion__adapt_criterion net in
  let c' := criterion__adapt_criterion (snd (on_batch_end self (X, y) net)) in
  in_range (memory_features c) (target_sample_idx X) ->
  in_range (memory_outputs c) (target_sample_idx X) ->
  (momentum self = 0 -> c' = c) /\
  (momentum self = 1 ->
   forall i j r, In i (target_sample_idx X) ->
     (row_of (length (memory_features c)) i = Some j ->
      memory_features c !! j = Some r ->
      memory_features c' !! j = Some (repeat 0 (length r))) /\
     (row_of (length (memory_outputs c)) i = Some j ->
      memory_outputs c !! j = Some r ->
      memory_outputs c' !! j = Some (repeat 0 (length r)))).
Proof.
  intros HX c c' Hf Ho. unfold c'.
  rewrite (on_batch_end_closed self X y net HX Hf Ho).
  cbn [snd criterion__adapt_criterion memory_features memory_outputs].
  split; intros Hm; rewrite Hm.
  - replace (1 - 0) with 1 by ring. rewrite !rescale_named_1.
    unfold c. now destruct (criterion__adapt_criterion net).
  - replace (1 - 1) with 0 by ring. intros i j r Hi.
    split; intros Hj Hr; rewrite <- map_Rmult_0;
      eapply rescale_named_row; eauto.
Qed.

Lemma on_batch_end_extreme_momentum_witness :
  memory_features (criterion__adapt_criterion
    (snd (on_batch_end {| momentum := 1 |} mixed_batch three_row_net)))
    !! 2%nat = Some [0].
Proof.
  destruct (on_batch_end_extreme_momentum {| momentum := 1 |} (fst mixed_batch)
              (snd mixed_batch) three_row_net) as [_ H].
  - split; reflexivity.
  - repeat constructor; vm_compute; discriminate.
  - repeat constructor; vm_compute; discriminate.
  - destruct (H eq_refl 2%Z 2%nat [3]) as [Hf _]; [simpl; auto|].
    apply Hf; reflexivity.
Defined.

(** ** When the epoch-begin pass returns, and what it leaves alone *)

Section EpochOutcome.

Context {input : Type}.
Implicit Types (ds : Dataset input) (net : NeuralNet input).

Lemma no_source_samples ds :
  Forall (fun d => (d < 0)%Z) (sample_domain (dataset_X ds)) ->
  source_of ds = [].
Proof.
  intros Hall. unfold source_of, dataset_samples.
  generalize (X_ (dataset_X ds)) (dataset_y ds).
  induction Hall as [|d dom Hd _ IH]; intros [|x xs] [|c cs]; simpl;
    try reflexivity.
  unfold is_source at 1. simpl.
  destruct (Z.leb_spec 0 d); [lia|]. apply IH.
Qed.

Lemma visited_nonempty_iff (y_s : list Z) :
  visited_classes y_s <> [] <->
  exists y, In y y_s /\ (0 <= y < Z.of_nat (n_unique y_s))%Z.
Proof.
  unfold visited_classes. split.
  - intros Hne.
    destruct (List.filter _ _) as [|c cs] eqn:E; [congruence|].
    assert (In c (List.filter
      (fun c => (0 <? count_occ Z.eq_dec y_s (Z.of_nat c))%nat)
      (seq 0 (n_unique y_s)))) as Hc by (rewrite E; now left).
    apply filter_In in Hc as [Hseq Hcount]. apply in_seq in Hseq.
    exists (Z.of_nat c). split; [|lia].
    apply (count_occ_In Z.eq_dec). lia.
  - intros (y & Hy & Hrange) E.
    assert (In (Z.to_nat y) (List.filter
      (fun c => (0 <? count_occ Z.eq_dec y_s (Z.of_nat c))%nat)
      (seq 0 (n_unique y_s)))) as Hc.
    { apply filter_In. split; [apply in_seq; lia|].
      rewrite Z2Nat.id by lia.
      apply (count_occ_In Z.eq_dec) in Hy. lia. }
    rewrite E in Hc. destruct Hc.
Qed.

End EpochOutcome.

(** X11: on a training set without a source sample the epoch-begin pass
    computes no centroid, raises on stacking the empty list and leaves the
    network, its previous clusterer included, as it was. *)
Theorem on_epoch_begin_no_source {input : Type} (ds : Dataset input)
    (net : NeuralNet input) :
  well_shaped_dataset ds ->
  Forall (fun d => (d < 0)%Z) (sample_domain (dataset_X ds)) ->
  on_epoch_begin ds net = (Raised RuntimeError, net).
Proof.
  intros Hds Hall. rewrite (on_epoch_begin_split ds net Hds).
  unfold source_inputs, source_labels.
  now rewrite (no_source_samples ds Hall).
Qed.

Lemma on_epoch_begin_no_source_witness :
  on_epoch_begin target_only_dataset identity_net =
  (Raised RuntimeError, identity_net).
Proof.
  apply (on_epoch_begin_no_source target_only_dataset identity_net).
  - split; reflexivity.
  - repeat constructor.
Defined.

(** X12: the epoch-begin pass changes nothing of the network but the
    clusterer of the criterion, whatever its outcome, and the clusterer a
    returning pass publishes owes nothing to the one it replaces. *)
Theorem on_epoch_begin_frame {input : Type} (ds : Dataset input)
    (net : NeuralNet input) (old : option SphericalKMeans) :
  let r := on_epoch_begin ds net in
  let r' := on_epoch_begin ds (with_target_kmeans old net) in
  module_training (snd r) = module_training net /\
  module_forward (snd r) = module_forward net /\
  predict_features (snd r) = predict_features net /\
  memory_features (criterion__adapt_criterion (snd r)) =
    memory_features (criterion__adapt_criterion net) /\
  memory_outputs (criterion__adapt_criterion (snd r)) =
    memory_outputs (criterion__adapt_criterion net) /\
  fst r' = fst r /\
  (fst r = Returned tt -> snd r' = snd r).
Proof.
  cbv zeta. unfold on_epoch_begin, bind, lift, gets. simpl.
  destruct (mask_select (X_ _) (ge_scalar _ _)) as [X_s|e];
    [|simpl; repeat split; auto; discriminate].
  destruct (mask_select (dataset_y _) _) as [y_s|e];
    [|simpl; repeat split; auto; discriminate].
  destruct (mask_select (X_ _) (lt_scalar _ _)) as [X_t|e];
    [|simpl; repeat split; auto; discriminate].
  destruct (centroid_loop _ _ _ _) as [[|c cs]|e]; simpl;
    repeat split; auto; discriminate.
Qed.

(** X13: the clusterer a returning epoch-begin pass builds has at least one
    initial centroid and never more than [n_clusters]; it has exactly
    [n_clusters] of them if and only if every class number below the number
    of distinct source labels has a source sample. *)
Theorem on_epoch_begin_centroid_count {input : Type} (ds : Dataset input)
    (net : NeuralNet input) :
  well_shaped_dataset ds ->
  length (predict_features net (source_inputs ds)) = length (source_inputs ds) ->
  fst (on_epoch_begin ds net) = Returned tt ->
  exists km,
    target_kmeans (criterion__adapt_criterion (snd (on_epoch_begin ds net))) =
      Some km /\
    n_clusters km = n_unique (source_labels ds) /\
    (1 <= length (initial_centroids km) <= n_clusters km)%nat /\
    (length (initial_centroids km) = n_clusters km <->
     forall c, (c < n_clusters km)%nat ->
       (0 < count_occ Z.eq_dec (source_labels ds) (Z.of_nat c))%nat).
Proof.
  intros Hds Hlen Hret.
  assert (visited_classes (source_labels ds) <> []) as Hne.
  { intros E. rewrite (on_epoch_begin_run ds net Hds Hlen), E in Hret.
    discriminate Hret. }
  destruct (on_epoch_begin_returns ds net Hds Hlen Hne) as [_ Hkm].
  eexists. split; [exact Hkm|]. cbn [n_clusters initial_centroids].
  rewrite length_map. split; [reflexivity|].
  set (ys := source_labels ds) in *.
  pose proof (filter_length_le
    (fun c => (0 <? count_occ Z.eq_dec ys (Z.of_nat c))%nat)
    (seq 0 (n_unique ys))) as Hle.
  rewrite length_seq in Hle. fold (visited_classes ys) in Hle.
  split.
  - split; [|exact Hle]. destruct (visited_classes ys); [congruence|simpl; lia].
  - split.
    + intros Heq c Hc. unfold visited_classes in Heq.
      rewrite <- (length_seq (n_unique ys) 0) in Heq at 2.
      apply filter_length_forallb in Heq.
      rewrite forallb_forall in Heq.
      specialize (Heq c). rewrite in_seq in Heq. specialize (Heq ltac:(lia)). lia.
    + intros Hall. unfold visited_classes.
      rewrite forallb_filter_id; [apply length_seq|].
      apply forallb_forall. intros c Hc. apply in_seq in Hc.
      specialize (Hall c). lia.
Qed.

Lemma on_epoch_begin_centroid_count_witness :
  exists km,
    target_kmeans (criterion__adapt_criterion
      (snd (on_epoch_begin gap_dataset identity_net))) = Some km /\
    n_clusters km = 2%nat /\
    (1 <= length (initial_centroids km) <= n_clusters km)%nat.
Proof.
  destruct (on_epoch_begin_centroid_count gap_dataset identity_net)
    as (km & Hkm & Hn & Hb & _).
  - split; reflexivity.
  - reflexivity.
  - reflexivity.
  - exists km. split; [exact Hkm|]. split; [exact Hn|exact Hb].
Defined.

(** X14: with one feature row per source sample, the epoch-begin pass
    returns if and only if some source label lies in [[0, n)], [n] being the
    number of distinct source labels; otherwise it raises on stacking the
    empty list of centroids and leaves the network as it was. *)
Theorem on_epoch_begin_returns_iff {input : Type} (ds : Dataset input)
    (net : NeuralNet input) :
  well_shaped_dataset ds ->
  length (predict_features net (source_inputs ds)) = length (source_inputs ds) ->
  let ys := source_labels ds in
  (fst (on_epoch_begin ds net) = Returned tt <->
   exists y, In y ys /\ (0 <= y < Z.of_nat (n_unique ys))%Z) /\
  (fst (on_epoch_begin ds net) <> Returned tt ->
   on_epoch_begin ds net = (Raised RuntimeError, net)).
Proof.
  intros Hds Hlen ys. rewrite <- visited_nonempty_iff.
  rewrite (on_epoch_begin_run ds net Hds Hlen). fold ys.
  destruct (visited_classes ys) as [|c cs]; simpl.
  - split; [split; [discriminate|congruence]|reflexivity].
  - split; [split; [discriminate|reflexivity]|congruence].
Qed.

Lemma on_epoch_begin_returns_iff_witness :
  fst (on_epoch_begin one_based_dataset identity_net) = Returned tt.
Proof.
  destruct (on_epoch_begin_returns_iff one_based_dataset identity_net)
    as [[_ H] _].
  - split; reflexivity.
  - reflexivity.
  - apply H. exists 1%Z. split; [simpl; auto|]. vm_compute. split; congruence.
Defined.

(** ** What the centroids do not depend on *)

Section CentroidInvariance.

Implicit Types (fs rows : tensor2) (ys : list Z).

Lemma combine_fst (fs : tensor2) ys :
  length fs = length ys -> map fst (combine fs ys) = fs.
Proof.
  revert ys. induction fs as [|r fs IH]; intros [|y ys] H; simpl in *;
    try reflexivity; try discriminate.
  f_equal. apply IH. lia.
Qed.

Lemma combine_labels (fs : tensor2) ys :
  length fs = length ys -> map snd (combine fs ys) = ys.
Proof.
  revert ys. induction fs as [|r fs IH]; intros [|y ys] H; simpl in *;
    try reflexivity; try discriminate.
  f_equal. apply IH. lia.
Qed.

Lemma filter_perm {A : Type} (f : A -> bool) (l l' : list A) :
  Permutation l l' -> Permutation (List.filter f l) (List.filter f l').
Proof.
  induction 1 as [|x l l' _ IH|x y l|l l' l'' _ IH1 _ IH2]; simpl.
  - constructor.
  - destruct (f x); [now constructor|exact IH].
  - destruct (f x), (f y); try reflexivity. apply perm_swap.
  - now transitivity (List.filter f l').
Qed.

Lemma sum_perm (l l' : list R) :
  Permutation l l' -> fold_right Rplus 0 l = fold_right Rplus 0 l'.
Proof.
  induction 1 as [|x l l' _ IH|x y l|l l' l'' _ IH1 _ IH2]; simpl; lra.
Qed.

Lemma n_unique_perm ys ys' : Permutation ys ys' -> n_unique ys = n_unique ys'.
Proof.
  intros H. unfold n_unique.
  apply Nat.le_antisymm; apply List.NoDup_incl_length;
    try apply List.NoDup_nodup; intros y Hy; apply nodup_In in Hy;
    apply nodup_In.
  - now apply (Permutation_in y H).
  - now apply (Permutation_in y (Permutation_sym H)).
Qed.

Lemma visited_classes_perm ys ys' :
  Permutation ys ys' -> visited_classes ys = visited_classes ys'.
Proof.
  intros H. unfold visited_classes. rewrite (n_unique_perm ys ys' H).
  apply filter_ext. intros c.
  now rewrite (proj1 (Permutation_count_occ Z.eq_dec ys ys') H).
Qed.

Lemma sum_dim0_normalize_perm (d : nat) rows rows' :
  rectangular d rows -> Permutation rows rows' ->
  sum_dim0 (normalize rows) = sum_dim0 (normalize rows').
Proof.
  intros Hrect Hperm.
  destruct rows as [|r rows].
  - apply Permutation_nil in Hperm. now subst.
  - assert (rows' <> []) as Hne'.
    { intros ->. apply Permutation_sym, Permutation_nil in Hperm. discriminate. }
    assert (rectangular d rows') as Hrect'
      by (unfold rectangular; now rewrite <- Hperm).
    rewrite (sum_dim0_normalize_coordinates d (r :: rows)) by (auto; discriminate).
    rewrite (sum_dim0_normalize_coordinates d rows') by auto.
    apply map_ext. intros j. unfold sum_of_normalized.
    apply sum_perm. now apply Permutation_map.
Qed.

Lemma mask_select_map {A B : Type} (g : A -> B) (t : list A) (mask : list bool) :
  mask_select (map g t) mask =
  obind (mask_select t mask) (fun sel => Returned (map g sel)).
Proof.
  unfold mask_select. rewrite length_map.
  destruct (Nat.eqb (length t) (length mask)); [|reflexivity]. simpl. f_equal.
  revert mask. induction t as [|x t IH]; intros [|b mask]; simpl;
    try reflexivity.
  destruct b; simpl; [f_equal|]; apply IH.
Qed.

Lemma mask_select_Forall {A : Type} (P : A -> Prop) (t : list A)
    (mask : list bool) (sel : list A) :
  Forall P t -> mask_select t mask = Returned sel -> Forall P sel.
Proof.
  unfold mask_select. destruct (Nat.eqb _ _); [|discriminate].
  intros Ht [= <-]. revert mask.
  induction Ht as [|x t Hx _ IH]; intros [|b mask]; simpl; try constructor.
  destruct b; simpl; [constructor; [exact Hx|]|]; apply IH.
Qed.

Lemma normalize_row_scaled (a : R) (v : vec) :
  1 <= a -> normalize_eps <= norm2 v ->
  normalize_row (map (Rmult a) v) = normalize_row v.
Proof.
  intros Ha Hv. unfold normalize_row.
  pose proof normalize_eps_pos as Heps.
  rewrite norm2_Rmult, Rabs_right by lra.
  rewrite !Rmax_left by nra.
  rewrite map_map. apply map_ext. intros x. field. lra.
Qed.

Lemma normalize_scaled (a : R) rows :
  1 <= a -> Forall (fun r => normalize_eps <= norm2 r) rows ->
  normalize (scale a rows) = normalize rows.
Proof.
  intros Ha H. unfold normalize, scale. rewrite map_map.
  induction H as [|r rows Hr _ IH]; simpl; [reflexivity|].
  now rewrite normalize_row_scaled, IH.
Qed.

End CentroidInvariance.

(** X15: the cluster count and the centroids the loop computes do not
    depend on the order in which the source samples come. *)
Theorem centroid_loop_order_free (fs fs' : tensor2) (ys ys' : list Z) (d : nat) :
  length fs = length ys -> length fs' = length ys' ->
  rectangular d fs ->
  Permutation (combine fs ys) (combine fs' ys') ->
  n_unique ys' = n_unique ys /\
  centroid_loop fs' ys' (seq 0 (n_unique ys')) [] =
  centroid_loop fs ys (seq 0 (n_unique ys)) [].
Proof.
  intros Hlen Hlen' Hrect Hperm.
  assert (Permutation ys ys') as Hys.
  { rewrite <- (combine_labels fs ys Hlen), <- (combine_labels fs' ys' Hlen').
    now apply Permutation_map. }
  split; [symmetry; now apply n_unique_perm|].
  rewrite !centroid_loop_run by assumption.
  fold (visited_classes ys'). fold (visited_classes ys).
  rewrite <- (visited_classes_perm ys ys' Hys). do 2 f_equal.
  apply map_ext. intros c. unfold class_centroid. symmetry.
  apply (sum_dim0_normalize_perm d).
  - now apply class_rows_rectangular.
  - unfold class_rows. apply Permutation_map. now apply filter_perm.
Qed.

Lemma centroid_loop_order_free_witness :
  centroid_loop [[0; 2]; [3; 4]; [1; 0]] [0%Z; 1%Z; 0%Z] (seq 0 2) [] =
  centroid_loop [[1; 0]; [3; 4]; [0; 2]] [0%Z; 1%Z; 0%Z] (seq 0 2) [].
Proof.
  apply (centroid_loop_order_free [[1; 0]; [3; 4]; [0; 2]]
           [[0; 2]; [3; 4]; [1; 0]] [0%Z; 1%Z; 0%Z] [0%Z; 1%Z; 0%Z] 2).
  - reflexivity.
  - reflexivity.
  - repeat constructor.
  - simpl.
    apply (perm_trans (l' := [([3; 4], 1%Z); ([1; 0], 0%Z); ([0; 2], 0%Z)])).
    + apply perm_swap.
    + apply (perm_trans (l' := [([3; 4], 1%Z); ([0; 2], 0%Z); ([1; 0], 0%Z)])).
      * apply perm_skip, perm_swap.
      * apply perm_swap.
Defined.

(** X16: multiplying every source feature vector by the same factor of at
    least [1] changes no centroid, as long as every feature vector has an L2
    norm of at least [1e-12]: only the directions of the features count. *)
Theorem centroid_loop_scale_free (a : R) (features_s : tensor2) (y_s : list Z)
    (cs : list nat) (acc : list vec) :
  1 <= a ->
  Forall (fun r => normalize_eps <= norm2 r) features_s ->
  centroid_loop (scale a features_s) y_s cs acc =
  centroid_loop features_s y_s cs acc.
Proof.
  intros Ha Hall. revert acc. induction cs as [|c cs IH]; intros acc; simpl;
    [reflexivity|].
  destruct (0 <? mask_sum (eq_scalar y_s (Z.of_nat c)))%nat; [|apply IH].
  unfold scale at 1. rewrite mask_select_map. fold (scale a features_s).
  destruct (mask_select features_s (eq_scalar y_s (Z.of_nat c)))
    as [rows|e] eqn:E; simpl; [|reflexivity].
  change (map (map (Rmult a)) rows) with (scale a rows).
  rewrite normalize_scaled; [apply IH|exact Ha|].
  now apply (mask_select_Forall _ _ _ _ Hall E).
Qed.

Lemma centroid_loop_scale_free_witness :
  centroid_loop (scale 5 [[3; 4]; [0; 2]]) [0%Z; 1%Z] (seq 0 2) [] =
  centroid_loop [[3; 4]; [0; 2]] [0%Z; 1%Z] (seq 0 2) [].
Proof.
  apply (centroid_loop_scale_free 5 [[3; 4]; [0; 2]] [0%Z; 1%Z] (seq 0 2) []).
  - lra.
  - pose proof normalize_eps_le_1 as Heps.
    repeat constructor; unfold norm2, sum_sq; simpl.
    + replace (3 * 3 + (4 * 4 + 0)) with (5 * 5) by ring.
      rewrite sqrt_square; lra.
    + replace (0 * 0 + (2 * 2 + 0)) with (2 * 2) by ring.
      rewrite sqrt_square; lra.
Defined.

(** ** The panels of the method comparison *)

Section Panels.

Import PlotMethodComparison.

Lemma classifier_loop_rows (ds_cnt i : nat)
    (pairs : list (String.string * estimator)) :
  map panel_row (classifier_loop ds_cnt i pairs) = seq i (length pairs) /\
  map panel_estimator (classifier_loop ds_cnt i pairs) = map snd pairs.
Proof.
  revert i. induction pairs as [|[name clf] pairs IH]; intros i; simpl.
  - split; reflexivity.
  - destruct (IH (S i)) as [IH1 IH2]. now rewrite IH1, IH2.
Qed.

Lemma combine_snd_firstn {A B : Type} (l : list A) (l' : list B) :
  map snd (combine l l') = firstn (length l) l'.
Proof.
  revert l'. induction l as [|x l IH]; intros [|y l']; simpl;
    try reflexivity.
  f_equal. apply IH.
Qed.

End Panels.

(** X17: for any lists of names and estimators, the loop draws on the
    consecutive rows [2, 3, ...] of the column, all of them inside the grid of
    [len(classifiers) + 2] rows, and fits the first [len(names)] estimators
    only.  The list of names of the file has eleven entries for twelve
    estimators: [CORAL] is never fitted, the last row of the grid stays
    empty, and from [SubspaceAlignment] on every panel carries the name of
    the next method. *)
Theorem panels_rows_and_estimators
    (names : list String.string)
    (classifiers : list PlotMethodComparison.estimator) (ds_cnt : nat) :
  let ps := PlotMethodComparison.panels names classifiers ds_cnt in
  map PlotMethodComparison.panel_row ps =
    seq 2 (Nat.min (length names) (length classifiers)) /\
  Forall (fun p => (2 <= PlotMethodComparison.panel_row p <
                    PlotMethodComparison.n_rows classifiers)%nat) ps /\
  map PlotMethodComparison.panel_estimator ps =
    firstn (length names) classifiers /\
  let file_ps := PlotMethodComparison.panels PlotMethodComparison.names
                   PlotMethodComparison.classifiers 0 in
  length PlotMethodComparison.names = 11%nat /\
  length PlotMethodComparison.classifiers = 12%nat /\
  ~ In PlotMethodComparison.CORAL
       (map PlotMethodComparison.panel_estimator file_ps) /\
  ~ In 13%nat (map PlotMethodComparison.panel_row file_ps) /\
  map (fun p => (PlotMethodComparison.panel_estimator p,
                 PlotMethodComparison.panel_ylabel p))
      (skipn 5 file_ps) =
    [ (PlotMethodComparison.SubspaceAlignment, Some "TCA"%string);
      (PlotMethodComparison.TransferComponentAnalysis, Some "OT mapping"%string);
      (PlotMethodComparison.OTmapping, Some "Entropic OT mapping"%string);
      (PlotMethodComparison.EntropicOTmapping,
         Some "Class Regularizer OT mapping"%string);
      (PlotMethodComparison.ClassRegularizerOTmapping,
         Some "Linear OT mapping"%string);
      (PlotMethodComparison.LinearOTmapping, Some "CORAL"%string) ].
Proof.
  cbv zeta. unfold PlotMethodComparison.panels.
  destruct (classifier_loop_rows ds_cnt 2 (combine names classifiers))
    as [Hrows Hest].
  rewrite length_combine in Hrows.
  split; [exact Hrows|]. split.
  - apply List.Forall_forall. intros p Hp.
    assert (In (PlotMethodComparison.panel_row p)
              (seq 2 (Nat.min (length names) (length classifiers)))) as Hin
      by (rewrite <- Hrows; now apply in_map).
    apply in_seq in Hin. unfold PlotMethodComparison.n_rows. lia.
  - split; [now rewrite Hest, combine_snd_firstn|].
    split; [reflexivity|]. split; [reflexivity|].
    split; [|split; [|reflexivity]].
    + simpl. intros H. repeat (destruct H as [H|H]; [discriminate|]). exact H.
    + simpl. intros H. repeat (destruct H as [H|H]; [discriminate|]). exact H.
Qed.

Lemma on_epoch_begin_last_class_empty_witness :
  fst (on_epoch_begin two_class_dataset identity_net) = Returned tt /\
  exists km,
    target_kmeans (criterion__adapt_criterion
      (snd (on_epoch_begin two_class_dataset identity_net))) = Some km /\
    n_clusters km = 2%nat /\
    length (initial_centroids km) = 2%nat.
Proof.
  destruct (on_epoch_begin_last_class_empty two_class_dataset identity_net 2)
    as (Hret & km & Hkm & Hn & _ & Hlen).
  - split; reflexivity.
  - reflexivity.
  - lia.
  - intros [|[|c]] Hc; [vm_compute; lia|vm_compute; lia|lia].
  - repeat constructor; vm_compute; congruence.
  - split; [exact Hret|]. exists km. auto.
Defined.

(** ** A class the loop does not reach *)

Lemma norm2_3_4 : norm2 [3; 4] = 5.
Proof.
  unfold norm2, sum_sq. simpl.
  replace (3 * 3 + (4 * 4 + 0)) with (5 * 5) by ring.
  apply sqrt_square. lra.
Qed.

Lemma l2_normalized_spec_3_4 : l2_normalized_spec [3; 4] = [3 / 5; 4 / 5].
Proof.
  unfold l2_normalized_spec. simpl.
  replace (3 * 3 + (4 * 4 + 0)) with (5 * 5) by ring.
  rewrite sqrt_square by lra. reflexivity.
Qed.

Lemma l2_normalized_spec_0_2 : l2_normalized_spec [0; 2] = [0; 1].
Proof.
  unfold l2_normalized_spec. simpl.
  replace (0 * 0 + (2 * 2 + 0)) with (2 * 2) by ring.
  rewrite sqrt_square by lra. f_equal; [lra|]. f_equal. lra.
Qed.

(** C4: with three classes and the source samples [(3, 4)] of class [0] and
    [(0, 2)] of class [2], the sum of the L2-normalised feature vectors is
    [(3/5, 4/5)] for class [0] and [(0, 1)] for class [2].  The epoch-begin
    pass returns a clusterer built with [n_clusters = 2] whose only initial
    centroid is [(3/5, 4/5)]: class [2] has a source sample and its centroid
    is not computed, the loop stopping at class [1]. *)
Theorem on_epoch_begin_upper_class_without_centroid :
  let ds := upper_class_dataset in
  let r := on_epoch_begin ds identity_net in
  let samples :=
    combine (predict_features identity_net (source_inputs ds)) (source_labels ds) in
  samples = [([3; 4], 0%Z); ([0; 2], 2%Z)] /\
  class_centroid_spec 2 samples 0 = [3 / 5; 4 / 5] /\
  class_centroid_spec 2 samples 2 = [0; 1] /\
  fst r = Returned tt /\
  exists km,
    target_kmeans (criterion__adapt_criterion (snd r)) = Some km /\
    n_clusters km = 2%nat /\
    initial_centroids km = [class_centroid_spec 2 samples 0] /\
    ~ In (class_centroid_spec 2 samples 2) (initial_centroids km).
Proof.
  cbv zeta.
  change (combine (predict_features identity_net (source_inputs upper_class_dataset))
                  (source_labels upper_class_dataset))
    with [([3; 4], 0%Z); ([0; 2], 2%Z)].
  assert (class_centroid_spec 2 [([3; 4], 0%Z); ([0; 2], 2%Z)] 0 = [3 / 5; 4 / 5])
    as H0.
  { unfold class_centroid_spec. cbn -[l2_normalized_spec].
    rewrite l2_normalized_spec_3_4. simpl.
    f_equal; [lra|]. f_equal. lra. }
  assert (class_centroid_spec 2 [([3; 4], 0%Z); ([0; 2], 2%Z)] 2 = [0; 1]) as H2.
  { unfold class_centroid_spec. cbn -[l2_normalized_spec].
    rewrite l2_normalized_spec_0_2. simpl.
    f_equal; [lra|]. f_equal. lra. }
  rewrite H0, H2.
  split; [reflexivity|]. split; [reflexivity|]. split; [reflexivity|].
  split; [reflexivity|].
  eexists. split; [reflexivity|]. split; [reflexivity|].
  assert (class_centroid [[3; 4]; [0; 2]] [0%Z; 2%Z] 0 = [3 / 5; 4 / 5]) as Hc.
  { unfold class_centroid, class_rows, normalize, normalize_row. simpl.
    rewrite norm2_3_4.
    rewrite Rmax_left by (pose proof normalize_eps_le_1; lra).
    reflexivity. }
  cbn [initial_centroids]. split.
  - change ([class_centroid [[3; 4]; [0; 2]] [0%Z; 2%Z] 0] = [[3 / 5; 4 / 5]]).
    now rewrite Hc.
  - change (~ In [0; 1] [class_centroid [[3; 4]; [0; 2]] [0%Z; 2%Z] 0]).
    rewrite Hc. intros [H|[]]. injection H as H _. lra.
Qed.

(** ** The pseudo-probabilities in binary32 *)

(** C5: on the binary32 softmax outputs [(1, exp(-100))] of a single target
    row with logits [(100, 0)], the square of the second entry underflows to
    zero, its column sum is zero and line 110 divides zero by zero: the
    pseudo-probabilities are [(1, NaN)] and the sum of the second class
    column is a NaN, not [1].  The same holds when the softmax output is
    zero itself, and for two such rows. *)
Theorem outputs_target32_zero_column :
  let softmax_out := [[Float32.one; Float32.exp_minus_100]] in
  Float32.square32 softmax_out = [[Float32.one; Float32.zero]] /\
  Float32.sum_dim0_32 (Float32.square32 softmax_out) =
    [Float32.one; Float32.zero] /\
  Float32.outputs_target32 softmax_out = [[Float32.one; Float32.nan]] /\
  Float32.sum_dim0_32 (Float32.outputs_target32 softmax_out) =
    [Float32.one; Float32.nan] /\
  Float32.sum_dim0_32 (Float32.outputs_target32 softmax_out) <>
    [Float32.one; Float32.one] /\
  Float32.outputs_target32 [[Float32.one; Float32.zero]] =
    [[Float32.one; Float32.nan]] /\
  Float32.sum_dim0_32 (Float32.outputs_target32 (softmax_out ++ softmax_out)) <>
    [Float32.one; Float32.one].
Proof.
  cbv zeta. repeat split; try (vm_compute; reflexivity);
    vm_compute; discriminate.
Qed.
